(** * The allocation solver of energy-efficient Serverledge

    A shallow embedding of [internal/solver/solver.go]: the periodic
    solve-and-publish cycle ([solve]), the snapshot builders
    ([prepareNodeInfo], [prepareFunctionInfo]), the planner
    ([computeFunctionsAllocation]) and the plan store
    ([saveAllocationToEtcd], [getAllocationFromEtcd]).

    Go values are represented as follows.
    - [int] is a 64-bit integer, carried as [Z].
    - [float64] is IEEE binary64, carried as [spec_float] with the
      operations of [SpecFloat] at precision 53 and [emax] 1024.
    - [string] is a byte string; [len] is [String.length].
    - A slice is a [list]; an index out of range panics.
    - A map that the code only ranges over is the list of its entries in
      the order the [range] loop visits them (the order is not specified by
      the language; [instances_of_Permutation] shows that it does not
      matter to the plan when node IPs are distinct); a map that the code
      builds and hands on is a [gmap].
    - Effects (the registries, the coordination store, the log, the foreign
      solver call) are threaded through a state monad over [World] whose
      computations may also end in [Fatal] ([log.Fatal]) or [Panic]. *)

From Stdlib Require Import ZArith String Ascii List Lia Floats.SpecFloat.
From stdpp Require Import gmap strings list fin_maps.

Open Scope Z_scope.

(** ** float64 *)

Module Float64.

Definition float64 : Type := spec_float.

Definition prec : Z := 53.
Definition emax : Z := 1024.

Definition of_Z (z : Z) : float64 := binary_normalize prec emax z 0 false.
(** [m * 2^e] rounded to the nearest binary64. *)
Definition of_scaled (m e : Z) : float64 := binary_normalize prec emax m e false.

Definition mul : float64 -> float64 -> float64 := SFmul prec emax.
Definition div : float64 -> float64 -> float64 := SFdiv prec emax.

(** [math.Round]: the nearest integer, halves away from zero; zeros,
    infinities and NaN are returned unchanged. *)
Definition Round (x : float64) : float64 :=
  match x with
  | S754_finite s m e =>
      if 0 <=? e then x
      else
        let q := Z.shiftr (Zpos m) (- e) in
        let r := Zpos m - Z.shiftl q (- e) in
        let q' := if Z.shiftl 1 (- e - 1) <=? r then q + 1 else q in
        binary_normalize prec emax (cond_Zopp s q') 0 s
  | _ => x
  end.

Definition min_int : Z := - 2 ^ 63.
Definition max_int : Z := 2 ^ 63 - 1.

(** The conversion [int(x)] of a float64: the fraction is discarded
    (truncation towards zero). The language leaves the result open when the
    value does not fit; the amd64 instruction yields the smallest int. *)
Definition to_int (x : float64) : Z :=
  match x with
  | S754_zero _ => 0
  | S754_finite s m e =>
      let mag := if 0 <=? e then Z.shiftl (Zpos m) e else Z.shiftr (Zpos m) (- e) in
      let v := cond_Zopp s mag in
      if (min_int <=? v) && (v <=? max_int) then v else min_int
  | _ => min_int
  end.

(** A float64 that is not negative and whose integer part fits an [int]. *)
Definition nonneg_in_range (x : float64) : Prop :=
  match x with
  | S754_zero _ => True
  | S754_finite false m e =>
      (if 0 <=? e then Z.shiftl (Zpos m) e else Z.shiftr (Zpos m) (- e)) <= max_int
  | _ => False
  end.

End Float64.

Import Float64.

#[global] Arguments of_Z : simpl never.
#[global] Arguments of_scaled : simpl never.
#[global] Arguments mul : simpl never.
#[global] Arguments div : simpl never.
#[global] Arguments Round : simpl never.
#[global] Arguments to_int : simpl never.

(** ** Data model *)

(** A value of type [interface{}] as [encoding/json] produces it, by
    dynamic type; the solver never looks inside an array or an object. *)
Inductive iface : Type :=
| INil
| IBool (b : bool)
| IFloat64 (f : float64)
| IString (s : string)
| IArray
| IObject.

(** The type assertion [v.(float64)]. *)
Definition as_float64 (v : iface) : option float64 :=
  match v with
  | IFloat64 f => Some f
  | _ => None
  end.

(** Modelled from the spec: the struct [registration.StatusInformation] is
    declared outside solver.go; the fields the solver reads are those of
    the spec's NodeInfo, with the float64 capacities of
    [initNodeResources]. *)
Record StatusInformation : Type := {
  Url : string;
  srv_TotalMemoryMB : Z;
  srv_ComputationalCapacity : float64;
  srv_MaximumCapacity : float64;
  srv_IPC : float64;
  srv_PowerConsumption : float64
}.

(** Modelled from the spec: the variable [node.Resources] is declared
    outside solver.go; its fields are the ones [initNodeResources]
    assigns. *)
Record NodeResources : Type := {
  res_TotalMemoryMB : Z;
  res_ComputationalCapacity : float64;
  res_MaximumCapacity : float64;
  res_IPC : float64;
  res_PowerConsumption : float64
}.

(** Modelled from the spec: the struct [function.Function] is declared
    outside solver.go; the spec's FunctionInfo gives integer metadata and
    a derived CPU-demand signal. *)
Record Function : Type := {
  Name : string;
  MemoryMB : Z;
  CPUDemand : float64;
  Workload : Z;
  Deadline : Z;
  Invocations : Z
}.

Definition set_CPUDemand (f : Function) (d : float64) : Function :=
  {| Name := Name f; MemoryMB := MemoryMB f; CPUDemand := d;
     Workload := Workload f; Deadline := Deadline f;
     Invocations := Invocations f |}.

Record NodeInformation : Type := {
  TotalMemoryMB : list Z;
  ComputationalCapacity : list Z;
  MaximumCapacity : list Z;
  IPC : list Z;
  PowerConsumption : list Z
}.

Record FunctionInformation : Type := {
  fi_MemoryMB : list Z;
  fi_Workload : list Z;
  fi_Deadline : list Z;
  fi_Invocations : list Z
}.

Record SolverResults : Type := {
  SolverWalltime : float64;
  SolverStatusName : string;
  ObjectiveValue : float64;
  ActiveNodesIndexes : list Z;
  FunctionsCapacity : list float64;
  NodesInstances : list (Z * list iface)
}.

Record FunctionAllocation : Type := {
  Capacity : float64;
  Instances : gmap string Z
}.

Abbreviation FunctionsAllocation := (gmap string FunctionAllocation).

(** The positional arguments of the foreign call [C.startSolver]. *)
Record SolveRequest : Type := {
  numberOfNodes : Z;
  numberOfFunctions : Z;
  nodeMemory : list Z;
  nodeCapacity : list Z;
  maximumCapacity : list Z;
  nodeIpc : list Z;
  nodePowerConsumption : list Z;
  functionMemory : list Z;
  functionWorkload : list Z;
  functionDeadline : list Z;
  functionInvocations : list Z
}.

(** ** The world the solver runs in *)

Definition error : Type := string.

(** The lines the solver writes to the log, by format and arguments. *)
Inductive logline : Type :=
| LogRunningSolver
| LogRetrievingFunction (functionName : string)
| LogSolverWalltime (t : float64)
| LogSolverStatus (s : string)
| LogEnergyConsumption (v : float64)
| LogActiveNodes (l : list Z)
| LogFunctionsCapacity (l : list float64)
| LogNodeInstances (nodeID : Z) (instances : list iface)
| LogNodeIpAddresses (l : list string)
| LogExpectedFloat64 (found : iface) (index : nat) (nodeID : Z)
| LogSolverTerminated
| LogFatal (msg : string).

(** What the process does to its surroundings, in order. *)
Inductive event : Type :=
| EvLog (l : logline)
| EvInitializePython
| EvStartSolver (req : SolveRequest)
| EvSaveFunction (f : Function) (ok : bool)
| EvGrant (ttl : Z) (ok : bool)
| EvPut (key value : string) (lease : Z) (ok : bool)
| EvGet (key : string) (ok : bool).

(** Modelled from the spec: the coordination store is a key-value service
    with leases (the etcd client is not part of solver.go). A key is bound
    to a lease; its value disappears when the lease expires. *)
Record Etcd : Type := {
  kv : gmap string (string * Z);
  leases : gmap Z Z;
  next_lease : Z;
  now : Z
}.

(** The state a cycle reads and writes: the node registry as the loop will
    visit it, the answer of the function registry's name list, the local
    resources and IP, the function metadata, whether an etcd client can be
    had, the script of coming store failures, the coordination store and
    the trace of what the process did so far. *)
Record World : Type := {
  w_servers : list (string * StatusInformation);
  w_all_functions : list string + error;
  w_resources : NodeResources;
  w_ip : string;
  w_functions : gmap string Function;
  w_client : bool;
  w_faults : list bool;
  w_etcd : Etcd;
  w_trace : list event
}.

Definition with_trace (w : World) (t : list event) : World :=
  {| w_servers := w_servers w; w_all_functions := w_all_functions w;
     w_resources := w_resources w; w_ip := w_ip w;
     w_functions := w_functions w; w_client := w_client w;
     w_faults := w_faults w; w_etcd := w_etcd w; w_trace := t |}.

Definition with_faults (w : World) (fl : list bool) : World :=
  {| w_servers := w_servers w; w_all_functions := w_all_functions w;
     w_resources := w_resources w; w_ip := w_ip w;
     w_functions := w_functions w; w_client := w_client w;
     w_faults := fl; w_etcd := w_etcd w; w_trace := w_trace w |}.

Definition with_functions (w : World) (fs : gmap string Function) : World :=
  {| w_servers := w_servers w; w_all_functions := w_all_functions w;
     w_resources := w_resources w; w_ip := w_ip w;
     w_functions := fs; w_client := w_client w;
     w_faults := w_faults w; w_etcd := w_etcd w; w_trace := w_trace w |}.

Definition with_etcd (w : World) (e : Etcd) : World :=
  {| w_servers := w_servers w; w_all_functions := w_all_functions w;
     w_resources := w_resources w; w_ip := w_ip w;
     w_functions := w_functions w; w_client := w_client w;
     w_faults := w_faults w; w_etcd := e; w_trace := w_trace w |}.

(** Time passes in the coordination store. *)
Definition elapse (d : Z) (w : World) : World :=
  with_etcd w {| kv := kv (w_etcd w); leases := leases (w_etcd w);
                 next_lease := next_lease (w_etcd w);
                 now := now (w_etcd w) + d |}.

(** ** The monad *)

Inductive outcome (A : Type) : Type :=
| Ret (a : A)
| Fatal
| Panic.
Arguments Ret {A} a.
Arguments Fatal {A}.
Arguments Panic {A}.

Definition M (A : Type) : Type := World -> outcome A * World.

Definition ret {A} (a : A) : M A := fun w => (Ret a, w).

Definition bind {A B} (m : M A) (k : A -> M B) : M B :=
  fun w =>
    match m w with
    | (Ret a, w') => k a w'
    | (Fatal, w') => (Fatal, w')
    | (Panic, w') => (Panic, w')
    end.

Declare Scope go_scope.
Delimit Scope go_scope with go.
Notation "'do' x <- m ; k" := (bind m (fun x => k))
  (at level 10, x name, m at level 100, k at level 200) : go_scope.
Notation "'do' ' p <- m ; k" := (bind m (fun p => k))
  (at level 10, p pattern, m at level 100, k at level 200) : go_scope.
Notation "'run' m ; k" := (bind m (fun _ => k))
  (at level 10, m at level 100, k at level 200) : go_scope.
Open Scope go_scope.

Definition panic {A} : M A := fun w => (Panic, w).

Definition emit (e : event) : M unit :=
  fun w => (Ret tt, with_trace w (w_trace w ++ [e])).

Definition log (l : logline) : M unit := emit (EvLog l).

(** [log.Fatal] and [log.Fatalf]: the line is written and the process
    exits. *)
Definition fatal {A} (msg : string) : M A :=
  fun w => (Fatal, with_trace w (w_trace w ++ [EvLog (LogFatal msg)])).

(** [l[i]] for a slice and a loop index. *)
Definition index {A} (l : list A) (i : nat) : M A :=
  match l !! i with
  | Some a => ret a
  | None => panic
  end.

(** [l[k]] for a slice and an [int]. *)
Definition index_int {A} (l : list A) (k : Z) : M A :=
  if 0 <=? k then index l (Z.to_nat k) else panic.

(** [l[i] = v]. *)
Definition assign {A} (l : list A) (i : nat) (v : A) : M (list A) :=
  if decide (i < length l)%nat then ret (<[i:=v]> l) else panic.

(** [s[lo:hi]] for a string. *)
Definition slice (s : string) (lo hi : Z) : M string :=
  if (0 <=? lo) && (lo <=? hi) && (hi <=? Z.of_nat (String.length s))
  then ret (String.substring (Z.to_nat lo) (Z.to_nat (hi - lo)) s)
  else panic.

(** ** Collaborators

    The registries, the function metadata store and the etcd client live in
    other packages. The registries are read from the world; a request to the
    coordination store succeeds or fails as the next entry of [w_faults]
    says ([true] is a failure, an exhausted script means no further
    failure). *)

(** Modelled from the spec: [registration.GetServersMap], the peer list of
    the node registry, in the order the [range] loop will visit it. *)
Definition GetServersMap : M (list (string * StatusInformation)) :=
  fun w => (Ret (w_servers w), w).

(** Modelled from the spec: [function.GetAll], the name list of the
    function registry, or an error. *)
Definition GetAll : M (list string + error) :=
  fun w => (Ret (w_all_functions w), w).

(** Modelled from the spec: the variable [node.Resources], the local
    node's resource record. *)
Definition Resources : M NodeResources :=
  fun w => (Ret (w_resources w), w).

(** Modelled from the spec: [utils.GetIpAddress], the local node's
    advertised IP. *)
Definition GetIpAddress : M string :=
  fun w => (Ret (w_ip w), w).

(** Modelled from the spec: [function.GetFunction], the metadata lookup of
    the function registry; [None] is its [false]. *)
Definition GetFunction (name : string) : M (option Function) :=
  fun w => (Ret (w_functions w !! name), w).

Definition next_fault : M bool :=
  fun w =>
    match w_faults w with
    | [] => (Ret false, w)
    | b :: fl => (Ret b, with_faults w fl)
    end.

(** The registry files [f] under its name. *)
Definition store_function (f : Function) : M unit :=
  fun w => (Ret tt, with_functions w (<[Name f := f]> (w_functions w))).

(** Modelled from the spec: the method [SaveToEtcd] of a function record,
    the metadata persistence of the function registry. *)
Definition SaveToEtcd (f : Function) : M (option error) :=
  do failed <- next_fault;
  if failed : bool then
    run emit (EvSaveFunction f false);
    ret (Some "etcd: request failed"%string)
  else
    run store_function f;
    run emit (EvSaveFunction f true);
    ret None.

(** Modelled from the spec: [utils.GetEtcdClient], the handle on the
    coordination store, or an error. *)
Definition GetEtcdClient : M (option error) :=
  fun w =>
    (Ret (if w_client w then None else Some "etcd: no client"%string), w).

(** A lease that was granted and is not over. *)
Definition alive (e : Etcd) (lease : Z) : bool :=
  match leases e !! lease with
  | Some expiry => now e <? expiry
  | None => false
  end.

Definition grant_lease (ttl : Z) : M Z :=
  fun w =>
    let e := w_etcd w in
    (Ret (next_lease e),
     with_etcd w {| kv := kv e;
                    leases := <[next_lease e := now e + ttl]> (leases e);
                    next_lease := next_lease e + 1;
                    now := now e |}).

(** Modelled from the spec: the client's [Grant], a fresh lease of [ttl]
    time units. *)
Definition Grant (ttl : Z) : M (Z + error) :=
  do failed <- next_fault;
  if failed : bool then
    run emit (EvGrant ttl false);
    ret (inr "etcd: request failed"%string)
  else
    do id <- grant_lease ttl;
    run emit (EvGrant ttl true);
    ret (inl id).

Definition put_key (key value : string) (lease : Z) : M bool :=
  fun w =>
    let e := w_etcd w in
    if alive e lease then
      (Ret true,
       with_etcd w {| kv := <[key := (value, lease)]> (kv e);
                      leases := leases e;
                      next_lease := next_lease e;
                      now := now e |})
    else (Ret false, w).

(** Modelled from the spec: the client's [Put] with [WithLease], which
    overwrites the value of [key] and binds it to a live lease. *)
Definition Put (key value : string) (lease : Z) : M (option error) :=
  do failed <- next_fault;
  if failed : bool then
    run emit (EvPut key value lease false);
    ret (Some "etcd: request failed"%string)
  else
    do bound <- put_key key value lease;
    run emit (EvPut key value lease bound);
    ret (if bound : bool then None
         else Some "etcd: requested lease not found"%string).

(** The values currently stored under a key: none once its lease is over. *)
Definition read_key (key : string) : M (list string) :=
  fun w =>
    let e := w_etcd w in
    (Ret match kv e !! key with
         | Some (value, lease) => if alive e lease then [value] else []
         | None => []
         end, w).

(** Modelled from the spec: the client's [Get], a point read; its answer
    is the list [Kvs]. *)
Definition Get (key : string) : M (list string + error) :=
  do failed <- next_fault;
  if failed : bool then
    run emit (EvGet key false);
    ret (inr "etcd: request failed"%string)
  else
    do kvs <- read_key key;
    run emit (EvGet key true);
    ret (inl kvs).

(** The foreign solver ([C.startSolver], an opaque synchronous call) and
    [encoding/json] on the two types the solver decodes and encodes, as
    capabilities. A [None] is an error of the codec. *)
Class Foreign : Type := {
  startSolver : SolveRequest -> string;
  json_Unmarshal_results : string -> option SolverResults;
  json_Marshal : FunctionsAllocation -> option string;
  json_Unmarshal : string -> option FunctionsAllocation
}.

(** The conversion [C.int(x)] of an [int]: the low 32 bits, signed. *)
Definition C_int (z : Z) : Z := (z + 2 ^ 31) mod 2 ^ 32 - 2 ^ 31.

(** ** solver.go *)

Definition len {A} (l : list A) : Z := Z.of_nat (length l).
Definition strlen (s : string) : Z := Z.of_nat (String.length s).

(** [make([]int, n)] and [make([]string, n)]. *)
Definition make_ints (n : nat) : list Z := replicate n 0.
Definition make_strings (n : nat) : list string := replicate n ""%string.

(** The body of the [range serversMap] loop of [prepareNodeInfo]; the loop
    state is the index [i] and the six slices. *)
Fixpoint prepareNodeInfo_range (servers : list (string * StatusInformation))
    (i : nat) (nodeInfo : NodeInformation) (nodeIp : list string)
    : M (nat * NodeInformation * list string) :=
  match servers with
  | [] => ret (i, nodeInfo, nodeIp)
  | (_, server) :: rest =>
      do mem <- assign (TotalMemoryMB nodeInfo) i (srv_TotalMemoryMB server);
      do cap <- assign (ComputationalCapacity nodeInfo) i
                  (to_int (srv_ComputationalCapacity server));
      do mx <- assign (MaximumCapacity nodeInfo) i
                  (to_int (srv_MaximumCapacity server));
      do ipc <- assign (IPC nodeInfo) i
                  (to_int (mul (srv_IPC server) (of_Z 10)));
      do pw <- assign (PowerConsumption nodeInfo) i
                  (to_int (srv_PowerConsumption server));
      do ip <- slice (Url server) 7 (strlen (Url server) - 5);
      do nodeIp' <- assign nodeIp i ip;
      prepareNodeInfo_range rest (S i)
        {| TotalMemoryMB := mem; ComputationalCapacity := cap;
           MaximumCapacity := mx; IPC := ipc; PowerConsumption := pw |}
        nodeIp'
  end.

Definition prepareNodeInfo (serversMap : list (string * StatusInformation))
    : M (NodeInformation * list string) :=
  let n := S (length serversMap) in
  let nodeIp := make_strings n in
  let nodeInfo :=
    {| TotalMemoryMB := make_ints n; ComputationalCapacity := make_ints n;
       MaximumCapacity := make_ints n; IPC := make_ints n;
       PowerConsumption := make_ints n |} in
  do '(i, nodeInfo, nodeIp) <- prepareNodeInfo_range serversMap 0 nodeInfo nodeIp;
  do res <- Resources;
  do mem <- assign (TotalMemoryMB nodeInfo) i (res_TotalMemoryMB res);
  do cap <- assign (ComputationalCapacity nodeInfo) i
              (to_int (res_ComputationalCapacity res));
  do mx <- assign (MaximumCapacity nodeInfo) i
              (to_int (res_MaximumCapacity res));
  do ipc <- assign (IPC nodeInfo) i (to_int (mul (res_IPC res) (of_Z 10)));
  do pw <- assign (PowerConsumption nodeInfo) i
              (to_int (res_PowerConsumption res));
  do self <- GetIpAddress;
  do nodeIp' <- assign nodeIp i self;
  ret ({| TotalMemoryMB := mem; ComputationalCapacity := cap;
          MaximumCapacity := mx; IPC := ipc; PowerConsumption := pw |},
       nodeIp').

Fixpoint prepareFunctionInfo_range (functions : list string) (i : nat)
    (functionInfo : FunctionInformation) : M FunctionInformation :=
  match functions with
  | [] => ret functionInfo
  | functionName :: rest =>
      do found <- GetFunction functionName;
      match found with
      | None =>
          run log (LogRetrievingFunction functionName);
          prepareFunctionInfo_range rest (S i) functionInfo
      | Some f =>
          do mem <- assign (fi_MemoryMB functionInfo) i (MemoryMB f);
          do wl <- assign (fi_Workload functionInfo) i
                     (Z.quot (Workload f) 1000000);
          do dl <- assign (fi_Deadline functionInfo) i (Deadline f);
          do inv <- assign (fi_Invocations functionInfo) i (Invocations f);
          prepareFunctionInfo_range rest (S i)
            {| fi_MemoryMB := mem; fi_Workload := wl; fi_Deadline := dl;
               fi_Invocations := inv |}
      end
  end.

Definition prepareFunctionInfo (functions : list string)
    : M FunctionInformation :=
  let n := length functions in
  prepareFunctionInfo_range functions 0
    {| fi_MemoryMB := make_ints n; fi_Workload := make_ints n;
       fi_Deadline := make_ints n; fi_Invocations := make_ints n |}.

(** [math.Round((capacity / maximumCapacity) * 100) / 100]. *)
Definition cpuDemand (capacity maximumCapacity : float64) : float64 :=
  div (Round (mul (div capacity maximumCapacity) (of_Z 100))) (of_Z 100).

(** The inner loop of [computeFunctionsAllocation], for function index
    [i]. *)
Fixpoint instances_range (nodesInstances : list (Z * list iface)) (i : nat)
    (nodeIp : list string) (ipInstancesMap : gmap string Z)
    : M (gmap string Z) :=
  match nodesInstances with
  | [] => ret ipInstancesMap
  | (key, instances) :: rest =>
      do v <- index instances i;
      match as_float64 v with
      | Some floatVal =>
          do ip <- index_int nodeIp key;
          instances_range rest i nodeIp
            (<[ip := to_int floatVal]> ipInstancesMap)
      | None =>
          run log (LogExpectedFloat64 v i key);
          instances_range rest i nodeIp ipInstancesMap
      end
  end.

Fixpoint computeFunctionsAllocation_range (results : SolverResults)
    (functions : list string) (i : nat) (nodeIp : list string)
    (allocation : FunctionsAllocation) : M (FunctionsAllocation + error) :=
  match functions with
  | [] => ret (inl allocation)
  | functionName :: rest =>
      do ipInstancesMap <- instances_range (NodesInstances results) i nodeIp ∅;
      do capacity <- index (FunctionsCapacity results) i;
      let allocation :=
        <[functionName := {| Capacity := capacity;
                             Instances := ipInstancesMap |}]> allocation in
      do found <- GetFunction functionName;
      match found with
      | None => ret (inr "Function not found"%string)
      | Some f =>
          do res <- Resources;
          do err <- SaveToEtcd
                      (set_CPUDemand f
                         (cpuDemand capacity (res_MaximumCapacity res)));
          match err with
          | Some e => ret (inr e)
          | None =>
              computeFunctionsAllocation_range results rest (S i) nodeIp
                allocation
          end
      end
  end.

Definition computeFunctionsAllocation (results : SolverResults)
    (functions : list string) (nodeIp : list string)
    : M (FunctionsAllocation + error) :=
  computeFunctionsAllocation_range results functions 0 nodeIp ∅.

(** The C array that [allocateAndInitialize] fills. *)
Definition allocateAndInitialize (data : list Z) : list Z := map C_int data.

Section Solver.
Context `{Foreign}.

Definition saveAllocationToEtcd (allocation : FunctionsAllocation)
    : M (option error) :=
  do client <- GetEtcdClient;
  match client with
  | Some e => fatal e
  | None =>
      match json_Marshal allocation with
      | None => ret (Some "Could not marshal allocation"%string)
      | Some payload =>
          do resp <- Grant 60;
          match resp with
          | inr e => fatal e
          | inl id =>
              do err <- Put "allocation" payload id;
              match err with
              | Some e => fatal e
              | None => ret None
              end
          end
      end
  end.

Definition getAllocationFromEtcd : M (FunctionsAllocation + error) :=
  do client <- GetEtcdClient;
  match client with
  | Some e => fatal e
  | None =>
      do resp <- Get "allocation";
      match resp with
      | inr e => ret (inr "Failed to get allocation from etcd"%string)
      | inl [] => ret (inr "No data found for key 'allocation'"%string)
      | inl (value :: _) =>
          match json_Unmarshal value with
          | None => ret (inr "Failed to unmarshal allocation"%string)
          | Some allocation => ret (inl allocation)
          end
      end
  end.

Fixpoint log_nodes_instances (nodesInstances : list (Z * list iface))
    : M unit :=
  match nodesInstances with
  | [] => ret tt
  | (nodeID, instances) :: rest =>
      run log (LogNodeInstances nodeID instances);
      log_nodes_instances rest
  end.

Definition solve_request (numberOfNodes numberOfFunctions : Z)
    (nodeInfo : NodeInformation) (functionInfo : FunctionInformation)
    : SolveRequest :=
  {| numberOfNodes := C_int numberOfNodes;
     numberOfFunctions := C_int numberOfFunctions;
     nodeMemory := allocateAndInitialize (TotalMemoryMB nodeInfo);
     nodeCapacity := allocateAndInitialize (ComputationalCapacity nodeInfo);
     maximumCapacity := allocateAndInitialize (MaximumCapacity nodeInfo);
     nodeIpc := allocateAndInitialize (IPC nodeInfo);
     nodePowerConsumption := allocateAndInitialize (PowerConsumption nodeInfo);
     functionMemory := allocateAndInitialize (fi_MemoryMB functionInfo);
     functionWorkload := allocateAndInitialize (fi_Workload functionInfo);
     functionDeadline := allocateAndInitialize (fi_Deadline functionInfo);
     functionInvocations :=
       allocateAndInitialize (fi_Invocations functionInfo) |}.

(** The part of [solve] under its comment [Process solver results]: the
    response is decoded and logged, the plan computed and published. *)
Definition process_results (jsonStr : string) (functions : list string)
    (nodeIp : list string) : M unit :=
  match json_Unmarshal_results jsonStr with
  | None => fatal "Error unmarshalling results"
  | Some results =>
      run log (LogSolverWalltime (SolverWalltime results));
      run log (LogSolverStatus (SolverStatusName results));
      run log (LogEnergyConsumption (ObjectiveValue results));
      run log (LogActiveNodes (ActiveNodesIndexes results));
      run log (LogFunctionsCapacity (FunctionsCapacity results));
      run log_nodes_instances (NodesInstances results);
      run log (LogNodeIpAddresses nodeIp);
      do planned <- computeFunctionsAllocation results functions nodeIp;
      match planned with
      | inr e => fatal "Error processing allocation"
      | inl allocation =>
          do err <- saveAllocationToEtcd allocation;
          match err with
          | Some e => fatal "Error saving allocation to Etcd"
          | None => log LogSolverTerminated
          end
      end
  end.

Definition solve : M unit :=
  run log LogRunningSolver;
  do serversMap <- GetServersMap;
  do all <- GetAll;
  match all with
  | inr e => fatal "Error retrieving functions"
  | inl functions =>
      let numberOfNodes := len serversMap + 1 in
      let numberOfFunctions := len functions in
      if (numberOfNodes =? 0) || (numberOfFunctions =? 0) then ret tt
      else
        do '(nodeInfo, nodeIp) <- prepareNodeInfo serversMap;
        do functionInfo <- prepareFunctionInfo functions;
        run emit EvInitializePython;
        let req :=
          solve_request numberOfNodes numberOfFunctions nodeInfo
            functionInfo in
        run emit (EvStartSolver req);
        process_results (startSolver req) functions nodeIp
  end.

End Solver.

(** ** Reading a trace *)

Definition is_solver_call (e : event) : bool :=
  match e with
  | EvInitializePython | EvStartSolver _ => true
  | _ => false
  end.

Definition is_publish (e : event) : bool :=
  match e with
  | EvGrant _ _ | EvPut _ _ _ _ => true
  | _ => false
  end.

(** The events a computation adds to the trace of [w]. *)
Definition emitted {A} (m : M A) (w : World) : list event :=
  drop (length (w_trace w)) (w_trace (snd (m w))).

(** ** Rows of the node snapshot *)

(** What the snapshot holds about one node: an entry of each of the five
    arrays and of the IP list. *)
Record node_row : Type := {
  row_memory : Z;
  row_capacity : Z;
  row_maximum : Z;
  row_ipc : Z;
  row_power : Z;
  row_ip : string
}.

(** The text [prepareNodeInfo] cuts out of a peer's URL. *)
Definition peer_ip (url : string) : string :=
  String.substring 7 (String.length url - 12) url.

Definition server_row (server : StatusInformation) : node_row :=
  {| row_memory := srv_TotalMemoryMB server;
     row_capacity := to_int (srv_ComputationalCapacity server);
     row_maximum := to_int (srv_MaximumCapacity server);
     row_ipc := to_int (mul (srv_IPC server) (of_Z 10));
     row_power := to_int (srv_PowerConsumption server);
     row_ip := peer_ip (Url server) |}.

Definition local_row (res : NodeResources) (ip : string) : node_row :=
  {| row_memory := res_TotalMemoryMB res;
     row_capacity := to_int (res_ComputationalCapacity res);
     row_maximum := to_int (res_MaximumCapacity res);
     row_ipc := to_int (mul (res_IPC res) (of_Z 10));
     row_power := to_int (res_PowerConsumption res);
     row_ip := ip |}.

(** Position [i] read across the five arrays and the IP list. *)
Definition row_at (nodeInfo : NodeInformation) (nodeIp : list string)
    (i : nat) : option node_row :=
  match TotalMemoryMB nodeInfo !! i, ComputationalCapacity nodeInfo !! i,
        MaximumCapacity nodeInfo !! i, IPC nodeInfo !! i,
        PowerConsumption nodeInfo !! i, nodeIp !! i with
  | Some m, Some c, Some x, Some p, Some q, Some a =>
      Some {| row_memory := m; row_capacity := c; row_maximum := x;
              row_ipc := p; row_power := q; row_ip := a |}
  | _, _, _, _, _, _ => None
  end.

(** The arrays whose columns are the given rows, followed by [k] entries
    that are still zero. *)
Definition columns (rows : list node_row) (k : nat)
    : NodeInformation * list string :=
  ({| TotalMemoryMB := map row_memory rows ++ make_ints k;
      ComputationalCapacity := map row_capacity rows ++ make_ints k;
      MaximumCapacity := map row_maximum rows ++ make_ints k;
      IPC := map row_ipc rows ++ make_ints k;
      PowerConsumption := map row_power rows ++ make_ints k |},
   map row_ip rows ++ make_strings k).

Definition url_sliceable (entry : string * StatusInformation) : Prop :=
  12 <= strlen (Url (snd entry)).

(** The rows of one cycle: the peers in the order the loop visits them,
    then the local node. *)
Definition snapshot_rows (serversMap : list (string * StatusInformation))
    (w : World) : list node_row :=
  map (fun e => server_row (snd e)) serversMap
  ++ [local_row (w_resources w) (w_ip w)].

(** ** Rows of the function snapshot *)

Record function_row : Type := {
  frow_memory : Z;
  frow_workload : Z;
  frow_deadline : Z;
  frow_invocations : Z
}.

Definition zero_row : function_row :=
  {| frow_memory := 0; frow_workload := 0; frow_deadline := 0;
     frow_invocations := 0 |}.

Definition metadata_row (f : Function) : function_row :=
  {| frow_memory := MemoryMB f;
     frow_workload := Z.quot (Workload f) 1000000;
     frow_deadline := Deadline f;
     frow_invocations := Invocations f |}.

(** Position [i] read across the four function arrays. *)
Definition frow_at (functionInfo : FunctionInformation) (i : nat)
    : option function_row :=
  match fi_MemoryMB functionInfo !! i, fi_Workload functionInfo !! i,
        fi_Deadline functionInfo !! i, fi_Invocations functionInfo !! i with
  | Some m, Some l, Some d, Some v =>
      Some {| frow_memory := m; frow_workload := l; frow_deadline := d;
              frow_invocations := v |}
  | _, _, _, _ => None
  end.

Definition fcolumns (rows : list function_row) (k : nat)
    : FunctionInformation :=
  {| fi_MemoryMB := map frow_memory rows ++ make_ints k;
     fi_Workload := map frow_workload rows ++ make_ints k;
     fi_Deadline := map frow_deadline rows ++ make_ints k;
     fi_Invocations := map frow_invocations rows ++ make_ints k |}.

(** What the registry of [w] gives for a name. *)
Definition lookup_row (w : World) (name : string) : function_row :=
  match w_functions w !! name with
  | Some f => metadata_row f
  | None => zero_row
  end.

(** The log lines of the failed lookups, in the order of the names. *)
Fixpoint lookup_failures (w : World) (functions : list string) : list event :=
  match functions with
  | [] => []
  | name :: rest =>
      match w_functions w !! name with
      | Some _ => lookup_failures w rest
      | None => EvLog (LogRetrievingFunction name) :: lookup_failures w rest
      end
  end.

(** ** A functional reading of the planner's loops *)

(** [nodeIp[key]] when it is in range. *)
Definition nth_ip (nodeIp : list string) (key : Z) : option string :=
  if 0 <=? key then nodeIp !! Z.to_nat key else None.

(** One entry of [NodesInstances] can be read at function index [i]: the
    sequence is long enough and, when the value is a float64, the key is an
    index of [nodeIp]. *)
Definition entry_okb (i : nat) (nodeIp : list string) (e : Z * list iface)
    : bool :=
  match snd e !! i with
  | None => false
  | Some v =>
      match as_float64 v with
      | Some _ => bool_decide (is_Some (nth_ip nodeIp (fst e)))
      | None => true
      end
  end.

(** Iteration [i] of the outer loop indexes in range. *)
Definition step_safeb (results : SolverResults) (nodeIp : list string)
    (i : nat) : bool :=
  forallb (entry_okb i nodeIp) (NodesInstances results)
  && bool_decide (i < length (FunctionsCapacity results))%nat.

Definition instance_entry (i : nat) (nodeIp : list string)
    (acc : gmap string Z) (e : Z * list iface) : gmap string Z :=
  match snd e !! i with
  | Some (IFloat64 f) =>
      match nth_ip nodeIp (fst e) with
      | Some ip => <[ip := to_int f]> acc
      | None => acc
      end
  | _ => acc
  end.

Definition instances_of (nodesInstances : list (Z * list iface)) (i : nat)
    (nodeIp : list string) (acc : gmap string Z) : gmap string Z :=
  foldl (instance_entry i nodeIp) acc nodesInstances.

(** An entry of [NodesInstances] sets the count [n] for [ip] at function
    index [i]. *)
Definition writes (i : nat) (nodeIp : list string)
    (nodesInstances : list (Z * list iface)) (ip : string) (n : Z) : Prop :=
  exists key instances f,
    (key, instances) ∈ nodesInstances
    /\ instances !! i = Some (IFloat64 f)
    /\ nth_ip nodeIp key = Some ip
    /\ n = to_int f.

(** The lines the inner loop logs, up to the entry where it panics if it
    does. *)
Fixpoint instances_log (nodesInstances : list (Z * list iface)) (i : nat)
    (nodeIp : list string) : list event :=
  match nodesInstances with
  | [] => []
  | e :: rest =>
      match snd e !! i with
      | None => []
      | Some v =>
          match as_float64 v with
          | Some _ =>
              match nth_ip nodeIp (fst e) with
              | Some _ => instances_log rest i nodeIp
              | None => []
              end
          | None =>
              EvLog (LogExpectedFloat64 v i (fst e))
              :: instances_log rest i nodeIp
          end
      end
  end.

(** The shape the planner needs of a solver response: a capacity for every
    function, an instance sequence as long as the function list under every
    node key, and every node key an index of [nodeIp]. *)
Definition response_fits (results : SolverResults) (functions : list string)
    (nodeIp : list string) : Prop :=
  (length functions <= length (FunctionsCapacity results))%nat
  /\ Forall (fun e => (length functions <= length (snd e))%nat
                      /\ 0 <= fst e < len nodeIp)
            (NodesInstances results).


(** Every name has metadata in the registry. *)
Definition all_registered (w : World) (functions : list string) : Prop :=
  Forall (fun name => is_Some (w_functions w !! name)) functions.

(** The next [n] requests to the coordination store succeed. *)
Definition no_fault (n : nat) (w : World) : Prop :=
  Forall (fun b => b = false) (take n (w_faults w)).

(** The registry files every record under its own name. *)
Definition registry_wf (w : World) : Prop :=
  forall name f, w_functions w !! name = Some f -> Name f = name.

(** The plan the outer loop builds from index [i] on, when it runs
    through. *)
Fixpoint plan_of (results : SolverResults) (functions : list string)
    (i : nat) (nodeIp : list string) (allocation : FunctionsAllocation)
    : FunctionsAllocation :=
  match functions with
  | [] => allocation
  | functionName :: rest =>
      match FunctionsCapacity results !! i with
      | Some capacity =>
          plan_of results rest (S i) nodeIp
            (<[functionName :=
                 {| Capacity := capacity;
                    Instances :=
                      instances_of (NodesInstances results) i nodeIp ∅ |}]>
               allocation)
      | None => allocation
      end
  end.

(** The request [solve] sends for the snapshot of [w]. *)
Definition snapshot_request (w : World) (functions : list string)
    : SolveRequest :=
  solve_request (len (w_servers w) + 1) (len functions)
    (fst (columns (snapshot_rows (w_servers w) w) 0))
    (fcolumns (map (lookup_row w) functions) 0).

(** What the cycle puts on the trace before it decodes the response. *)
Definition snapshot_trace (w : World) (functions : list string)
    : list event :=
  EvLog LogRunningSolver
  :: lookup_failures w functions
  ++ [EvInitializePython; EvStartSolver (snapshot_request w functions)].

(** The IP list of the snapshot of [w]. *)
Definition snapshot_ips (w : World) : list string :=
  snd (columns (snapshot_rows (w_servers w) w) 0).

(** ** Worlds along a planning call *)

Definition logged (w : World) (t : list event) : World :=
  with_trace w (w_trace w ++ t).

(** The world after a request to the coordination store was answered. *)
Definition answered (w : World) : World :=
  with_faults w (tl (w_faults w)).

(** The world after [f] was saved. *)
Definition persisted (w : World) (f : Function) : World :=
  logged (with_functions (answered w) (<[Name f := f]> (w_functions w)))
    [EvSaveFunction f true].

(** The world after saving [f] failed. *)
Definition refused (w : World) (f : Function) : World :=
  logged (answered w) [EvSaveFunction f false].

(** The record the planner saves for a function whose metadata is [f]. *)
Definition demanded (w : World) (f : Function) (capacity : float64)
    : Function :=
  set_CPUDemand f (cpuDemand capacity (res_MaximumCapacity (w_resources w))).

(** The world after a lease of [ttl] was granted. *)
Definition granted (w : World) (ttl : Z) : World :=
  with_etcd w {| kv := kv (w_etcd w);
                 leases := <[next_lease (w_etcd w) := now (w_etcd w) + ttl]>
                             (leases (w_etcd w));
                 next_lease := next_lease (w_etcd w) + 1;
                 now := now (w_etcd w) |}.

(** The world after [key] was bound to [value] under [lease]. *)
Definition bound (w : World) (key value : string) (lease : Z) : World :=
  with_etcd w {| kv := <[key := (value, lease)]> (kv (w_etcd w));
                 leases := leases (w_etcd w);
                 next_lease := next_lease (w_etcd w);
                 now := now (w_etcd w) |}.

(** A planning call that runs through: iteration by iteration, from index
    [i] on, what the loop reads and how the plan and the world move. *)
Inductive planned (results : SolverResults) (nodeIp : list string)
    : nat -> list string -> FunctionsAllocation -> World ->
      FunctionsAllocation -> World -> Prop :=
| planned_nil (i : nat) (allocation : FunctionsAllocation) (w : World) :
    planned results nodeIp i [] allocation w allocation w
| planned_cons (i : nat) (functionName : string) (rest : list string)
    (allocation plan : FunctionsAllocation) (w w' : World)
    (capacity : float64) (f : Function) :
    step_safeb results nodeIp i = true ->
    FunctionsCapacity results !! i = Some capacity ->
    w_functions w !! functionName = Some f ->
    hd false (w_faults w) = false ->
    planned results nodeIp (S i) rest
      (<[functionName :=
           {| Capacity := capacity;
              Instances := instances_of (NodesInstances results) i nodeIp ∅ |}]>
         allocation)
      (persisted
         (logged w (instances_log (NodesInstances results) i nodeIp))
         (demanded w f capacity))
      plan w' ->
    planned results nodeIp i (functionName :: rest) allocation w plan w'.

(** ** Decidable equality of plans *)

#[global] Instance float64_eq_dec : EqDecision float64.
Proof. unfold float64. solve_decision. Defined.

#[global] Instance FunctionAllocation_eq_dec : EqDecision FunctionAllocation.
Proof. solve_decision. Defined.

(** Collaborators given by a table: the solver answers with [results] and
    the codec knows the text [payload] of [plan]. *)
Definition table_foreign (results : SolverResults)
    (plan : FunctionsAllocation) (payload : string) : Foreign :=
  {| startSolver := fun _ => "results"%string;
     json_Unmarshal_results :=
       fun s => if decide (s = "results"%string) then Some results else None;
     json_Marshal :=
       fun a => if decide (a = plan) then Some payload else None;
     json_Unmarshal :=
       fun s => if decide (s = payload) then Some plan else None |}.

(** ** A small cluster

    Two peers and the local node, two registered functions, and a solver
    response for them. *)

Module Demo.

Definition peer (url : string) : StatusInformation :=
  {| Url := url; srv_TotalMemoryMB := 16000;
     srv_ComputationalCapacity := of_Z 9600;
     srv_MaximumCapacity := of_Z 2400; srv_IPC := of_Z 1;
     srv_PowerConsumption := of_Z 400 |}.

Definition servers : list (string * StatusInformation) :=
  [("node-a"%string, peer "http://10.0.0.1:1323");
   ("node-b"%string, peer "http://10.0.0.2:1323")].

Definition resources : NodeResources :=
  {| res_TotalMemoryMB := 8000; res_ComputationalCapacity := of_Z 800;
     res_MaximumCapacity := of_Z 200; res_IPC := of_Z 1;
     res_PowerConsumption := of_Z 400 |}.

Definition fn (name : string) : Function :=
  {| Name := name; MemoryMB := 128; CPUDemand := of_Z 0;
     Workload := 5000000; Deadline := 100; Invocations := 10 |}.

Definition functions : list string := ["f"%string; "g"%string].

Definition registry : gmap string Function :=
  <["f"%string := fn "f"]> (<["g"%string := fn "g"]> ∅).

Definition nodeIp : list string :=
  ["10.0.0.1"%string; "10.0.0.2"%string; "10.0.0.9"%string].

(** Node 0 runs three instances of f and reports no number for g; node 2
    runs one instance of f and two of g. *)
Definition results : SolverResults :=
  {| SolverWalltime := of_Z 1; SolverStatusName := "OPTIMAL";
     ObjectiveValue := of_Z 800; ActiveNodesIndexes := [0; 2];
     FunctionsCapacity := [of_Z 150; of_Z 100];
     NodesInstances :=
       [(0, [IFloat64 (of_Z 3); IString "n/a"]);
        (2, [IFloat64 (of_Z 1); IFloat64 (of_Z 2)])] |}.

Definition plan : FunctionsAllocation :=
  <["f"%string :=
      {| Capacity := of_Z 150;
         Instances := <["10.0.0.1"%string := 3]>
                        (<["10.0.0.9"%string := 1]> ∅) |}]>
    (<["g"%string :=
         {| Capacity := of_Z 100;
            Instances := <["10.0.0.9"%string := 2]> ∅ |}]> ∅).

Definition payload : string :=
  "{'f':{'Capacity':150,'Instances':{'10.0.0.1':3,'10.0.0.9':1}},'g':{'Capacity':100,'Instances':{'10.0.0.9':2}}}".

#[local] Instance foreign : Foreign := table_foreign results plan payload.

Definition etcd : Etcd :=
  {| kv := ∅; leases := ∅; next_lease := 1; now := 0 |}.

Definition world : World :=
  {| w_servers := servers; w_all_functions := inl functions;
     w_resources := resources; w_ip := "10.0.0.9";
     w_functions := registry; w_client := true; w_faults := [];
     w_etcd := etcd; w_trace := [] |}.

(** The same cluster with no function registered. *)
Definition idle : World :=
  {| w_servers := servers; w_all_functions := inl [];
     w_resources := resources; w_ip := "10.0.0.9";
     w_functions := ∅; w_client := true; w_faults := [];
     w_etcd := etcd; w_trace := [] |}.

(** The second request to the coordination store fails. *)
Definition flaky : World := with_faults world [false; true].

End Demo.

(** ** A node without peers *)

Module Lone.

Definition results : SolverResults :=
  {| SolverWalltime := of_Z 1; SolverStatusName := "OPTIMAL";
     ObjectiveValue := of_Z 400; ActiveNodesIndexes := [0];
     FunctionsCapacity := [of_Z 150];
     NodesInstances := [(0, [IFloat64 (of_Z 2)])] |}.

Definition plan : FunctionsAllocation :=
  <["f"%string :=
      {| Capacity := of_Z 150;
         Instances := <["10.0.0.9"%string := 2]> ∅ |}]> ∅.

Definition payload : string :=
  "{'f':{'Capacity':150,'Instances':{'10.0.0.9':2}}}".

#[local] Instance foreign : Foreign := table_foreign results plan payload.

Definition world : World :=
  {| w_servers := []; w_all_functions := inl ["f"%string];
     w_resources := Demo.resources; w_ip := "10.0.0.9";
     w_functions := Demo.registry; w_client := true; w_faults := [];
     w_etcd := Demo.etcd; w_trace := [] |}.

End Lone.

(** ** A response with a negative count *)

Module Negative.

Definition results : SolverResults :=
  {| SolverWalltime := of_Z 1; SolverStatusName := "OPTIMAL";
     ObjectiveValue := of_Z 0; ActiveNodesIndexes := [0];
     FunctionsCapacity := [of_Z 150];
     NodesInstances := [(0, [IFloat64 (of_Z (-1))])] |}.

Definition world : World :=
  {| w_servers := []; w_all_functions := inl ["f"%string];
     w_resources := Demo.resources; w_ip := "10.0.0.9";
     w_functions := Demo.registry; w_client := true; w_faults := [];
     w_etcd := Demo.etcd; w_trace := [] |}.

End Negative.

(** Every number of the response's instance sequences is non-negative and
    fits an [int]. *)
Definition counts_nonneg (results : SolverResults) : Prop :=
  forall key instances f,
    (key, instances) ∈ NodesInstances results ->
    IFloat64 f ∈ instances ->
    nonneg_in_range f.

(** ** Responses that do not fit *)

Module Misfit.

(** A capacity is missing for the second function. *)
Definition short_capacity : SolverResults :=
  {| SolverWalltime := of_Z 1; SolverStatusName := "OPTIMAL";
     ObjectiveValue := of_Z 0; ActiveNodesIndexes := [0];
     FunctionsCapacity := [of_Z 150];
     NodesInstances := [(0, [IFloat64 (of_Z 3); IFloat64 (of_Z 1)])] |}.

(** Node 0 has a count for the first function only. *)
Definition short_instances : SolverResults :=
  {| SolverWalltime := of_Z 1; SolverStatusName := "OPTIMAL";
     ObjectiveValue := of_Z 0; ActiveNodesIndexes := [0];
     FunctionsCapacity := [of_Z 150; of_Z 100];
     NodesInstances := [(0, [IFloat64 (of_Z 3)])] |}.

(** Node key 7 with three nodes in the snapshot. *)
Definition foreign_key : SolverResults :=
  {| SolverWalltime := of_Z 1; SolverStatusName := "OPTIMAL";
     ObjectiveValue := of_Z 0; ActiveNodesIndexes := [7];
     FunctionsCapacity := [of_Z 150; of_Z 100];
     NodesInstances := [(7, [IFloat64 (of_Z 3); IFloat64 (of_Z 1)])] |}.

End Misfit.

(** ** Reading a URL by its structure *)

(** The text after the first [://]. *)
Fixpoint after_scheme (url : string) : option string :=
  match url with
  | EmptyString => None
  | String c rest =>
      match rest with
      | String c1 (String c2 rest') =>
          if Ascii.eqb c ":" && Ascii.eqb c1 "/" && Ascii.eqb c2 "/"
          then Some rest'
          else after_scheme rest
      | _ => None
      end
  end.

(** The text before the first [:] or [/]. *)
Fixpoint before_port (s : string) : string :=
  match s with
  | EmptyString => EmptyString
  | String c rest =>
      if Ascii.eqb c ":" || Ascii.eqb c "/" then EmptyString
      else String c (before_port rest)
  end.

(** Modelled from the spec: the structural parse of an advertised service
    URL, scheme [://] host [:] port, into its host part. *)
Definition url_host (url : string) : option string :=
  option_map before_port (after_scheme url).

(** The value a computation returned, if it did. *)
Definition returned {A} (o : outcome A) : option A :=
  match o with
  | Ret a => Some a
  | _ => None
  end.

(** A trace without a call to the solver and without a publish. *)
Definition quiet (t : list event) : bool :=
  forallb (fun e => negb (is_solver_call e || is_publish e)) t.

(** A peer that serves on port 80. *)
Definition short_port_peer : string * StatusInformation :=
  ("node-c"%string, Demo.peer "http://10.0.0.3:80").

(** ** Start-up, the watcher and the role switch

    The rest of solver.go: [initNodeResources], [setAllocation],
    [GetAllocation], [watchAllocation] and [Run]. The package variable
    [Allocation] and the lines only the watcher logs are kept beside the
    world in a [Process]; the mutex around [Allocation] has no content for
    a single thread of control and is not represented. *)

(** What [cpu.Info] reports per core; the solver reads the clock only. *)
Record InfoStat : Type := { Mhz : float64 }.

(** What [mem.VirtualMemory] reports; [Total] is a uint64 count of bytes. *)
Record VirtualMemoryStat : Type := { Total : Z }.

(** The conversion [int64(x)] of a uint64: the same 64 bits, signed. *)
Definition int64_of_uint64 (z : Z) : Z := (z + 2 ^ 63) mod 2 ^ 64 - 2 ^ 63.

Definition with_resources (w : World) (r : NodeResources) : World :=
  {| w_servers := w_servers w; w_all_functions := w_all_functions w;
     w_resources := r; w_ip := w_ip w;
     w_functions := w_functions w; w_client := w_client w;
     w_faults := w_faults w; w_etcd := w_etcd w; w_trace := w_trace w |}.

(** The assignments to the fields of [node.Resources]. *)
Definition set_Resources (r : NodeResources) : M unit :=
  fun w => (Ret tt, with_resources w r).

(** [initNodeResources], given the answers of [cpu.Info] and
    [mem.VirtualMemory]. *)
Definition initNodeResources (cpuInfo : list InfoStat + error)
    (vMemInfo : VirtualMemoryStat + error) : M (option error) :=
  match cpuInfo with
  | inr err => fatal err
  | inl cpuInfo =>
      match vMemInfo with
      | inr err => fatal err
      | inl vMemInfo =>
          do core <- index cpuInfo 0;
          run set_Resources
                {| res_TotalMemoryMB :=
                     int64_of_uint64 (Total vMemInfo / 1000000);
                   res_ComputationalCapacity :=
                     mul (Mhz core) (of_Z (len cpuInfo));
                   res_MaximumCapacity := Mhz core;
                   res_IPC := of_Z 1;
                   res_PowerConsumption := of_Z 400 |};
          ret None
      end
  end.

(** One change the watch channel reports. *)
Record WatchEvent : Type := {
  ev_Type : string;
  ev_Key : string;
  ev_Value : string
}.

(** One message of the watch channel: the events it carries, and what the
    rest of the cluster has done to the coordination store by the time the
    watcher reads the message. *)
Record WatchResponse : Type := {
  arrives : Etcd -> Etcd;
  Events : list WatchEvent
}.

(** The lines only the watcher logs. *)
Inductive watchline : Type :=
| LogRunningWatcher
| LogEventReceived (event : WatchEvent)
| LogErrorRetrieving (err : error)
| LogUpdatedAllocation (allocation : FunctionsAllocation).

Record Process : Type := {
  p_world : World;
  Allocation : FunctionsAllocation;
  p_log : list watchline
}.

Definition P (A : Type) : Type := Process -> outcome A * Process.

Definition pret {A} (a : A) : P A := fun p => (Ret a, p).

Definition pbind {A B} (m : P A) (k : A -> P B) : P B :=
  fun p =>
    match m p with
    | (Ret a, p') => k a p'
    | (Fatal, p') => (Fatal, p')
    | (Panic, p') => (Panic, p')
    end.

Declare Scope proc_scope.
Delimit Scope proc_scope with proc.
Notation "'do' x <- m ; k" := (pbind m (fun x => k))
  (at level 10, x name, m at level 100, k at level 200) : proc_scope.
Notation "'run' m ; k" := (pbind m (fun _ => k))
  (at level 10, m at level 100, k at level 200) : proc_scope.

(** A computation on the world, run inside the process. *)
Definition lift {A} (m : M A) : P A :=
  fun p =>
    let '(o, w') := m (p_world p) in
    (o, {| p_world := w'; Allocation := Allocation p; p_log := p_log p |}).

Definition wlog (l : watchline) : P unit :=
  fun p =>
    (Ret tt, {| p_world := p_world p; Allocation := Allocation p;
                p_log := p_log p ++ [l] |}).

Definition setAllocation (newAllocation : FunctionsAllocation) : P unit :=
  fun p =>
    (Ret tt, {| p_world := p_world p; Allocation := newAllocation;
                p_log := p_log p |}).

Definition GetAllocation : P FunctionsAllocation :=
  fun p => (Ret (Allocation p), p).

(** The cluster moves on while the watcher waits for the next message. *)
Definition receive (r : WatchResponse) : P unit :=
  fun p =>
    (Ret tt, {| p_world := with_etcd (p_world p) (arrives r (w_etcd (p_world p)));
                Allocation := Allocation p; p_log := p_log p |}).

Section Watcher.
Context `{Foreign}.

(** The body of the inner loop of [watchAllocation]. *)
Definition watch_event (event : WatchEvent) : P unit :=
  (run wlog (LogEventReceived event);
   do fetched <- lift getAllocationFromEtcd;
   match fetched with
   | inr err => wlog (LogErrorRetrieving err)
   | inl allocation =>
       run setAllocation allocation;
       do current <- GetAllocation;
       wlog (LogUpdatedAllocation current)
   end)%proc.

Fixpoint watch_events (events : list WatchEvent) : P unit :=
  match events with
  | [] => pret tt
  | event :: rest => (run watch_event event; watch_events rest)%proc
  end.

(** The loop over the watch channel, for the messages it delivers before
    it is closed. *)
Fixpoint watch_responses (responses : list WatchResponse) : P unit :=
  match responses with
  | [] => pret tt
  | watchResp :: rest =>
      (run receive watchResp;
       run watch_events (Events watchResp);
       watch_responses rest)%proc
  end.

Definition watchAllocation (watchChan : list WatchResponse) : P unit :=
  (run wlog LogRunningWatcher;
   do client <- lift GetEtcdClient;
   match client with
   | Some err => lift (fatal err)
   | None => watch_responses watchChan
   end)%proc.

(** [time.Duration(epochDuration) * time.Second]: a period in nanoseconds,
    multiplied in 64 bits. *)
Definition epoch_period (epochDuration : Z) : Z :=
  int64_of_uint64 (epochDuration * 1000000000).

(** [time.NewTicker], which panics for a period that is not positive. *)
Definition NewTicker (d : Z) : M unit :=
  if 0 <? d then ret tt else panic.

(** Waiting for the ticker's channel to deliver: time passes. *)
Definition tick (wait : Z) : M unit :=
  fun w => (Ret tt, elapse wait w).

(** The solver loop of [Run] for the ticks the ticker delivers, each given
    by the time the loop waited for it. *)
Fixpoint solver_ticks (ticks : list Z) : M unit :=
  match ticks with
  | [] => ret tt
  | wait :: rest => run tick wait; run solve; solver_ticks rest
  end.

(** [Run], given the answers of the hardware probes, the configured role
    and epoch, and what the ticker or the watch channel delivers. *)
Definition Run (cpuInfo : list InfoStat + error)
    (vMemInfo : VirtualMemoryStat + error) (isSolverNode : bool)
    (epochDuration : Z) (ticks : list Z) (watchChan : list WatchResponse) :
    P unit :=
  (do err <- lift (initNodeResources cpuInfo vMemInfo);
   match err with
   | Some e => lift (fatal "Error in initializing node resources")
   | None =>
       if isSolverNode
       then lift (run NewTicker (epoch_period epochDuration);
                  solver_ticks ticks)%go
       else watchAllocation watchChan
   end)%proc.

End Watcher.

(** The coordination store as the watcher finds it after the given
    messages. *)
Definition store_after (responses : list WatchResponse) (e : Etcd) : Etcd :=
  foldl (fun e r => arrives r e) e responses.

(** A process that starts on world [w] with an empty cache. *)
Definition start (w : World) : Process :=
  {| p_world := w; Allocation := ∅; p_log := [] |}.

(** The events planning may cause: log lines and saves of function
    records. *)
Definition planner_event (e : event) : bool :=
  match e with
  | EvLog _ | EvSaveFunction _ _ => true
  | _ => false
  end.

(** The events a watcher may cause: log lines and reads of the
    coordination store. *)
Definition watcher_event (e : event) : bool :=
  match e with
  | EvLog _ | EvGet _ _ => true
  | _ => false
  end.

(** What the watcher leaves behind: a client, and a world that differs
    from the one it found by the cluster's moves on the store, by answered
    requests and by reads and log lines on the trace. *)
Definition watched (responses : list WatchResponse) (p p' : Process) : Prop :=
  w_client (p_world p') = true
  /\ w_etcd (p_world p') = store_after responses (w_etcd (p_world p))
  /\ w_functions (p_world p') = w_functions (p_world p)
  /\ (w_faults (p_world p) = [] -> w_faults (p_world p') = [])
  /\ exists t, w_trace (p_world p') = w_trace (p_world p) ++ t
               /\ forallb watcher_event t = true.

Section Fetched.
Context `{Foreign}.

(** What a fetch answers on a node that has a client, read off the world:
    the request may fail, the key may have no live value, the value may not
    decode. *)
Definition fetched (w : World) : FunctionsAllocation + error :=
  if hd false (w_faults w)
  then inr "Failed to get allocation from etcd"%string
  else
    match kv (w_etcd w) !! "allocation"%string with
    | Some (value, lease) =>
        if alive (w_etcd w) lease then
          match json_Unmarshal value with
          | Some allocation => inl allocation
          | None => inr "Failed to unmarshal allocation"%string
          end
        else inr "No data found for key 'allocation'"%string
    | None => inr "No data found for key 'allocation'"%string
    end.

(** The process after the watcher handled one event. *)
Definition after_event (event : WatchEvent) (p : Process) : Process :=
  {| p_world :=
       logged (answered (p_world p))
         [EvGet "allocation" (negb (hd false (w_faults (p_world p))))];
     Allocation :=
       match fetched (p_world p) with
       | inl allocation => allocation
       | inr _ => Allocation p
       end;
     p_log :=
       p_log p
       ++ [LogEventReceived event;
           match fetched (p_world p) with
           | inl allocation => LogUpdatedAllocation allocation
           | inr err => LogErrorRetrieving err
           end] |}.

End Fetched.

(** The resources [initNodeResources] sets for the given probe answers. *)
Definition probed_resources (core : InfoStat) (cores : list InfoStat)
    (vMemInfo : VirtualMemoryStat) : NodeResources :=
  {| res_TotalMemoryMB := int64_of_uint64 (Total vMemInfo / 1000000);
     res_ComputationalCapacity :=
       mul (Mhz core) (of_Z (len (core :: cores)));
     res_MaximumCapacity := Mhz core;
     res_IPC := of_Z 1;
     res_PowerConsumption := of_Z 400 |}.

(** Both probes answered and at least one core was reported. *)
Definition probes_ok (cpuInfo : list InfoStat + error)
    (vMemInfo : VirtualMemoryStat + error) : Prop :=
  exists core cores mem, cpuInfo = inl (core :: cores) /\ vMemInfo = inl mem.

(** The world after a plan with text [payload] was published. *)
Definition published (w : World) (payload : string) : World :=
  logged
    (bound (answered (logged (granted (answered w) 60) [EvGrant 60 true]))
       "allocation" payload (next_lease (w_etcd w)))
    [EvPut "allocation" payload (next_lease (w_etcd w)) true].

Section Steady.
Context `{Foreign}.


End Steady.

(** ** More of the small cluster *)

Module Site.

(** A peer whose URL is too short to hold a scheme and a port. *)
Definition stub_peer : string * StatusInformation :=
  ("node-d"%string, Demo.peer "udp://a").

(** The small cluster with no metadata for the function g. *)
Definition partial : World :=
  {| w_servers := Demo.servers; w_all_functions := inl Demo.functions;
     w_resources := Demo.resources; w_ip := "10.0.0.9";
     w_functions := <["f"%string := Demo.fn "f"]> ∅; w_client := true;
     w_faults := []; w_etcd := Demo.etcd; w_trace := [] |}.

(** Collaborators whose solver answers with a text that does not decode. *)
Definition garbled : Foreign :=
  {| startSolver := fun _ => "Traceback"%string;
     json_Unmarshal_results := fun _ => None;
     json_Marshal := fun _ => None;
     json_Unmarshal := fun _ => None |}.

(** A machine with four cores at 2400 MHz and 16 GB of memory. *)
Definition core : InfoStat := {| Mhz := of_Z 2400 |}.
Definition memory : VirtualMemoryStat := {| Total := 16000000000 |}.

(** A put on the key [allocation], as the watch channel reports it. *)
Definition put_event : WatchEvent :=
  {| ev_Type := "PUT"; ev_Key := "allocation"; ev_Value := Demo.payload |}.

(** A message that arrives with the store unchanged. *)
Definition quiet_message : WatchResponse :=
  {| arrives := fun e => e; Events := [put_event] |}.

(** A message that arrives after the solver node published the plan of the
    small cluster. *)
Definition plan_message : WatchResponse :=
  {| arrives := fun _ => w_etcd (published Demo.world Demo.payload);
     Events := [put_event] |}.

End Site.

(** ** The order of a map *)

(** The same response with the entries of [NodesInstances] visited in
    another order. *)
Definition with_instances (results : SolverResults)
    (visited : list (Z * list iface)) : SolverResults :=
  {| SolverWalltime := SolverWalltime results;
     SolverStatusName := SolverStatusName results;
     ObjectiveValue := ObjectiveValue results;
     ActiveNodesIndexes := ActiveNodesIndexes results;
     FunctionsCapacity := FunctionsCapacity results;
     NodesInstances := visited |}.


Module Twins.

(** Two peers that serve on port 80: their URLs are cut to the same
    text. *)
Definition servers : list (string * StatusInformation) :=
  [("node-e"%string, Demo.peer "http://10.0.0.12:80");
   ("node-f"%string, Demo.peer "http://10.0.0.13:80")].

(** One instance on node 0, two on node 1. *)
Definition results : SolverResults :=
  {| SolverWalltime := of_Z 1; SolverStatusName := "OPTIMAL";
     ObjectiveValue := of_Z 0; ActiveNodesIndexes := [0; 1];
     FunctionsCapacity := [of_Z 150];
     NodesInstances := [(0, [IFloat64 (of_Z 1)]); (1, [IFloat64 (of_Z 2)])] |}.

End Twins.

(** ** Monad and slice lemmas *)

Lemma bind_ret {A B} (m : M A) (k : A -> M B) (w w' : World) (a : A) :
  m w = (Ret a, w') -> bind m k w = k a w'.
Proof. intros E. unfold bind. now rewrite E. Qed.

Lemma bind_panic {A B} (m : M A) (k : A -> M B) (w w' : World) :
  m w = (Panic, w') -> bind m k w = (Panic, w').
Proof. intros E. unfold bind. now rewrite E. Qed.

Lemma assign_at_end {A} (d v : A) (vs : list A) (k i : nat) (w : World) :
  i = length vs ->
  assign (vs ++ replicate (S k) d) i v w
  = (Ret ((vs ++ [v]) ++ replicate k d), w).
Proof.
  intros ->. unfold assign.
  destruct (decide (length vs < length (vs ++ replicate (S k) d))%nat) as [_|n].
  - unfold ret. f_equal. f_equal.
    rewrite insert_app_r_alt by lia.
    rewrite Nat.sub_diag. simpl. now rewrite <- app_assoc.
  - exfalso. apply n. rewrite length_app. simpl. lia.
Qed.

Lemma slice_peer_ip (url : string) (w : World) :
  12 <= strlen url ->
  slice url 7 (strlen url - 5) w = (Ret (peer_ip url), w).
Proof.
  intros Hlen. unfold slice, peer_ip, strlen in *.
  replace ((0 <=? 7) && (7 <=? Z.of_nat (String.length url) - 5)
           && (Z.of_nat (String.length url) - 5 <=? Z.of_nat (String.length url)))
    with true.
  - unfold ret. do 3 f_equal. lia.
  - symmetry. rewrite !andb_true_iff, !Z.leb_le. lia.
Qed.

Lemma slice_short (url : string) (w : World) :
  strlen url < 12 -> slice url 7 (strlen url - 5) w = (Panic, w).
Proof.
  intros Hlen. unfold slice.
  replace (7 <=? strlen url - 5) with false; [reflexivity|].
  symmetry. apply Z.leb_gt. lia.
Qed.

Lemma prepareNodeInfo_range_columns (servers : list (string * StatusInformation)) :
  forall (rows : list node_row) (k : nat) (w : World),
    Forall url_sliceable servers ->
    prepareNodeInfo_range servers (length rows)
      (fst (columns rows (length servers + S k)))
      (snd (columns rows (length servers + S k))) w
    = (Ret (length rows + length servers,
            fst (columns (rows ++ map (fun e => server_row (snd e)) servers) (S k)),
            snd (columns (rows ++ map (fun e => server_row (snd e)) servers) (S k)))%nat,
       w).
Proof.
  induction servers as [|[key server] rest IH]; intros rows k w Hurl.
  - simpl. rewrite app_nil_r, Nat.add_0_r. reflexivity.
  - inversion Hurl as [|? ? Hs Hrest]; subst. unfold url_sliceable in Hs.
    simpl in Hs. cbn [prepareNodeInfo_range columns fst snd length Nat.add].
    unfold make_ints, make_strings.
    do 5 (erewrite bind_ret; [|apply assign_at_end; now rewrite length_map]).
    erewrite bind_ret; [|now apply slice_peer_ip].
    erewrite bind_ret; [|apply assign_at_end; now rewrite length_map].
    specialize (IH (rows ++ [server_row server]) k w Hrest).
    rewrite length_app in IH. simpl in IH.
    replace (S (length rows)) with (length rows + 1)%nat by lia.
    unfold columns, make_ints, make_strings in IH. simpl in IH.
    rewrite !map_app in IH. simpl in IH.
    rewrite IH. rewrite !map_app. simpl. rewrite <- !app_assoc. simpl.
    replace (length rows + 1 + length rest)%nat
      with (length rows + S (length rest))%nat by lia.
    reflexivity.
Qed.

(** ** The node snapshot *)

Lemma prepareNodeInfo_columns (serversMap : list (string * StatusInformation))
    (w : World) :
  Forall url_sliceable serversMap ->
  prepareNodeInfo serversMap w
  = (Ret (columns (snapshot_rows serversMap w) 0), w).
Proof.
  intros Hurl. unfold prepareNodeInfo.
  pose proof (prepareNodeInfo_range_columns serversMap [] 0 w Hurl) as E.
  cbn [columns fst snd map app length Nat.add] in E.
  replace (S (length serversMap)) with (length serversMap + 1)%nat by lia.
  erewrite bind_ret; [|exact E].
  cbn beta iota. unfold Resources, GetIpAddress.
  erewrite bind_ret; [|reflexivity].
  do 5 (erewrite bind_ret;
        [|apply assign_at_end; now rewrite length_map, length_map]).
  erewrite bind_ret; [|reflexivity].
  erewrite bind_ret;
    [|apply assign_at_end; now rewrite length_map, length_map].
  unfold ret, columns, snapshot_rows, make_ints, make_strings.
  rewrite !map_app. simpl. rewrite !app_nil_r. reflexivity.
Qed.

Lemma row_at_columns (rows : list node_row) (i : nat) :
  row_at (fst (columns rows 0)) (snd (columns rows 0)) i = rows !! i.
Proof.
  unfold row_at, columns, make_ints, make_strings. simpl.
  rewrite !app_nil_r, !list_lookup_fmap.
  destruct (rows !! i) as [[]|]; reflexivity.
Qed.

(** C7. A snapshot built from [n] peers has five node arrays and an IP list
    of length [n + 1]; position [n] holds the local node, and position [i]
    of every array and of the IP list holds the data of the [i]-th peer
    visited. *)
Theorem prepareNodeInfo_index_aligned
    (serversMap : list (string * StatusInformation)) (w : World) :
  Forall url_sliceable serversMap ->
  exists nodeInfo nodeIp,
    prepareNodeInfo serversMap w = (Ret (nodeInfo, nodeIp), w)
    /\ (length (TotalMemoryMB nodeInfo) = S (length serversMap)
        /\ length (ComputationalCapacity nodeInfo) = S (length serversMap)
        /\ length (MaximumCapacity nodeInfo) = S (length serversMap)
        /\ length (IPC nodeInfo) = S (length serversMap)
        /\ length (PowerConsumption nodeInfo) = S (length serversMap)
        /\ length nodeIp = S (length serversMap))
    /\ row_at nodeInfo nodeIp (length serversMap)
       = Some (local_row (w_resources w) (w_ip w))
    /\ forall (i : nat) (key : string) (server : StatusInformation),
         serversMap !! i = Some (key, server) ->
         row_at nodeInfo nodeIp i = Some (server_row server).
Proof.
  intros Hurl.
  exists (fst (columns (snapshot_rows serversMap w) 0)),
         (snd (columns (snapshot_rows serversMap w) 0)).
  split; [|split; [|split]].
  - rewrite <- surjective_pairing. now apply prepareNodeInfo_columns.
  - unfold columns, snapshot_rows, make_ints, make_strings. simpl.
    rewrite !length_app, !length_map, !length_app, !length_map. simpl.
    repeat split; lia.
  - rewrite row_at_columns. unfold snapshot_rows.
    rewrite lookup_app_r; rewrite length_map; [|lia].
    now rewrite Nat.sub_diag.
  - intros i key server Hi. rewrite row_at_columns. unfold snapshot_rows.
    rewrite lookup_app_l.
    + rewrite list_lookup_fmap, Hi. reflexivity.
    + rewrite length_map. now apply lookup_lt_Some in Hi.
Qed.

(** ** The function snapshot *)

Lemma with_trace_trace (w : World) (t u : list event) :
  with_trace (with_trace w t) u = with_trace w u.
Proof. reflexivity. Qed.

Lemma with_trace_same (w : World) : with_trace w (w_trace w) = w.
Proof. now destruct w. Qed.

Lemma lookup_failures_with_trace (w : World) (t : list event)
    (functions : list string) :
  lookup_failures (with_trace w t) functions = lookup_failures w functions.
Proof.
  induction functions as [|n rest IH]; [reflexivity|].
  simpl. now rewrite IH.
Qed.

Lemma prepareFunctionInfo_range_columns (functions : list string) :
  forall (rows : list function_row) (k : nat) (w : World),
    prepareFunctionInfo_range functions (length rows)
      (fcolumns rows (length functions + k)) w
    = (Ret (fcolumns (rows ++ map (lookup_row w) functions) k),
       with_trace w (w_trace w ++ lookup_failures w functions)).
Proof.
  induction functions as [|name rest IH]; intros rows k w.
  - simpl. rewrite !app_nil_r, with_trace_same. reflexivity.
  - cbn [prepareFunctionInfo_range lookup_failures map length Nat.add].
    unfold GetFunction at 1. erewrite bind_ret; [|reflexivity].
    unfold lookup_row at 1.
    destruct (w_functions w !! name) as [f|] eqn:Hf.
    + unfold fcolumns at 1, make_ints. cbn [fi_MemoryMB fi_Workload fi_Deadline
        fi_Invocations replicate].
      do 4 (erewrite bind_ret;
            [|apply assign_at_end; now rewrite length_map]).
      specialize (IH (rows ++ [metadata_row f]) k w).
      rewrite length_app in IH. simpl in IH.
      replace (length rows + 1)%nat with (S (length rows)) in IH by lia.
      unfold fcolumns at 1, make_ints in IH.
      rewrite !map_app in IH. simpl in IH. rewrite IH.
      rewrite <- !app_assoc. reflexivity.
    + unfold log, emit. erewrite bind_ret; [|reflexivity].
      specialize (IH (rows ++ [zero_row]) k
                    (with_trace w (w_trace w ++ [EvLog (LogRetrievingFunction name)]))).
      rewrite length_app in IH. simpl in IH.
      replace (length rows + 1)%nat with (S (length rows)) in IH by lia.
      unfold fcolumns at 1, make_ints in IH.
      rewrite !map_app in IH. simpl in IH. rewrite <- !app_assoc in IH.
      simpl in IH. unfold fcolumns at 1, make_ints. simpl. rewrite IH.
      rewrite lookup_failures_with_trace. reflexivity.
Qed.

Lemma frow_at_fcolumns (rows : list function_row) (i : nat) :
  frow_at (fcolumns rows 0) i = rows !! i.
Proof.
  unfold frow_at, fcolumns, make_ints. simpl.
  rewrite !app_nil_r, !list_lookup_fmap.
  destruct (rows !! i) as [[]|]; reflexivity.
Qed.

Lemma lookup_failures_logged (w : World) (functions : list string) (name : string) :
  name ∈ functions -> w_functions w !! name = None ->
  EvLog (LogRetrievingFunction name) ∈ lookup_failures w functions.
Proof.
  induction functions as [|n rest IH]; intros Hin Hnone.
  - inversion Hin.
  - simpl. apply elem_of_cons in Hin as [->|Hin].
    + rewrite Hnone. left.
    + destruct (w_functions w !! n); [|right]; now apply IH.
Qed.

(** C8. The function snapshot is always built. A name whose metadata lookup
    fails is logged and its four entries stay zero; a name whose lookup
    succeeds gets its metadata, whatever happened to the other names. *)
Theorem prepareFunctionInfo_soft_fail (functions : list string) (w : World) :
  exists functionInfo,
    prepareFunctionInfo functions w
    = (Ret functionInfo,
       with_trace w (w_trace w ++ lookup_failures w functions))
    /\ (length (fi_MemoryMB functionInfo) = length functions
        /\ length (fi_Workload functionInfo) = length functions
        /\ length (fi_Deadline functionInfo) = length functions
        /\ length (fi_Invocations functionInfo) = length functions)
    /\ forall (i : nat) (name : string),
         functions !! i = Some name ->
         match w_functions w !! name with
         | None =>
             frow_at functionInfo i = Some zero_row
             /\ EvLog (LogRetrievingFunction name)
                ∈ lookup_failures w functions
         | Some f => frow_at functionInfo i = Some (metadata_row f)
         end.
Proof.
  exists (fcolumns (map (lookup_row w) functions) 0).
  split; [|split].
  - unfold prepareFunctionInfo.
    pose proof (prepareFunctionInfo_range_columns functions [] 0 w) as E.
    rewrite Nat.add_0_r in E. exact E.
  - unfold fcolumns, make_ints. simpl.
    rewrite !app_nil_r, !length_map. auto.
  - intros i name Hi. rewrite frow_at_fcolumns, list_lookup_fmap, Hi.
    simpl. unfold lookup_row.
    destruct (w_functions w !! name) eqn:Hf; [reflexivity|].
    split; [reflexivity|].
    apply lookup_failures_logged; [|exact Hf].
    apply list_elem_of_lookup. eauto.
Qed.

(** ** The planner's inner loop *)

Lemma index_spec {A} (l : list A) (i : nat) (w : World) :
  index l i w = (match l !! i with Some a => Ret a | None => Panic end, w).
Proof. unfold index. now destruct (l !! i). Qed.

Lemma index_int_spec (nodeIp : list string) (key : Z) (w : World) :
  index_int nodeIp key w
  = (match nth_ip nodeIp key with Some a => Ret a | None => Panic end, w).
Proof.
  unfold index_int, nth_ip. destruct (0 <=? key); [apply index_spec|reflexivity].
Qed.

Lemma instances_range_spec (nodesInstances : list (Z * list iface)) (i : nat)
    (nodeIp : list string) :
  forall (acc : gmap string Z) (w : World),
    instances_range nodesInstances i nodeIp acc w
    = (if forallb (entry_okb i nodeIp) nodesInstances
       then Ret (instances_of nodesInstances i nodeIp acc)
       else Panic,
       with_trace w (w_trace w ++ instances_log nodesInstances i nodeIp)).
Proof.
  induction nodesInstances as [|[key instances] rest IH]; intros acc w.
  - simpl. now rewrite app_nil_r, with_trace_same.
  - cbn [forallb instances_range instances_log].
    unfold entry_okb at 1, instances_of.
    cbn [foldl fst snd].
    unfold instance_entry at 2. cbn [fst snd].
    unfold bind at 1. rewrite index_spec.
    destruct (instances !! i) as [v|]; cbn [andb].
    2:{ now rewrite app_nil_r, with_trace_same. }
    destruct v as [| b | f | s | |]; cbn [as_float64 andb];
      try (unfold log, emit; erewrite bind_ret; [|reflexivity];
           rewrite IH; cbn [w_trace with_trace];
           now rewrite with_trace_trace, <- app_assoc).
    unfold bind at 1. rewrite index_int_spec.
    destruct (nth_ip nodeIp key) as [ip|].
    + rewrite bool_decide_eq_true_2 by eauto. cbn [andb app].
      apply IH.
    + rewrite bool_decide_eq_false_2 by (intros [? ?]; discriminate).
      cbn [andb]. now rewrite app_nil_r, with_trace_same.
Qed.

(** ** The planner's outer loop *)

Lemma with_faults_same (w : World) : with_faults w (w_faults w) = w.
Proof. now destruct w. Qed.

Lemma next_fault_spec (w : World) :
  next_fault w = (Ret (hd false (w_faults w)), answered w).
Proof.
  unfold next_fault, answered. destruct (w_faults w) as [|b fl] eqn:E.
  - simpl. now rewrite <- E, with_faults_same.
  - reflexivity.
Qed.

Lemma SaveToEtcd_spec (f : Function) (w : World) :
  SaveToEtcd f w
  = if hd false (w_faults w)
    then (Ret (Some "etcd: request failed"%string), refused w f)
    else (Ret None, persisted w f).
Proof.
  unfold SaveToEtcd. erewrite bind_ret; [|apply next_fault_spec].
  destruct (hd false (w_faults w)); reflexivity.
Qed.

Lemma computeFunctionsAllocation_range_cons (results : SolverResults)
    (functionName : string) (rest : list string) (i : nat)
    (nodeIp : list string) (allocation : FunctionsAllocation) (w : World) :
  computeFunctionsAllocation_range results (functionName :: rest) i nodeIp
    allocation w
  = let w1 := logged w (instances_log (NodesInstances results) i nodeIp) in
    if forallb (entry_okb i nodeIp) (NodesInstances results) then
      match FunctionsCapacity results !! i with
      | None => (Panic, w1)
      | Some capacity =>
          match w_functions w !! functionName with
          | None => (Ret (inr "Function not found"%string), w1)
          | Some f =>
              if hd false (w_faults w)
              then (Ret (inr "etcd: request failed"%string),
                    refused w1 (demanded w f capacity))
              else
                computeFunctionsAllocation_range results rest (S i) nodeIp
                  (<[functionName :=
                       {| Capacity := capacity;
                          Instances :=
                            instances_of (NodesInstances results) i nodeIp ∅ |}]>
                     allocation)
                  (persisted w1 (demanded w f capacity))
          end
      end
    else (Panic, w1).
Proof.
  cbn [computeFunctionsAllocation_range]. cbv zeta.
  unfold bind at 1. rewrite instances_range_spec. fold (logged w (instances_log (NodesInstances results) i nodeIp)).
  destruct (forallb (entry_okb i nodeIp) (NodesInstances results)); [|reflexivity].
  unfold bind at 1. rewrite index_spec.
  destruct (FunctionsCapacity results !! i) as [capacity|]; [|reflexivity].
  unfold GetFunction at 1. erewrite bind_ret; [|reflexivity].
  cbn [logged with_trace w_functions].
  destruct (w_functions w !! functionName) as [f|]; [|reflexivity].
  unfold Resources at 1. erewrite bind_ret; [|reflexivity].
  unfold bind at 1. rewrite SaveToEtcd_spec.
  cbn [logged with_trace w_faults w_resources].
  destruct (hd false (w_faults w)); reflexivity.
Qed.

Lemma step_safeb_true (results : SolverResults) (nodeIp : list string) (i : nat) :
  step_safeb results nodeIp i = true
  <-> forallb (entry_okb i nodeIp) (NodesInstances results) = true
      /\ is_Some (FunctionsCapacity results !! i).
Proof.
  unfold step_safeb. rewrite andb_true_iff, bool_decide_eq_true.
  now rewrite lookup_lt_is_Some.
Qed.

Lemma planned_sound (results : SolverResults) (nodeIp : list string)
    (functions : list string) :
  forall (i : nat) (allocation plan : FunctionsAllocation) (w w' : World),
    computeFunctionsAllocation_range results functions i nodeIp allocation w
    = (Ret (inl plan), w') ->
    planned results nodeIp i functions allocation w plan w'.
Proof.
  induction functions as [|fn rest IH]; intros i allocation plan w w' E.
  - simpl in E. unfold ret in E. injection E as <- <-. constructor.
  - rewrite computeFunctionsAllocation_range_cons in E. cbv zeta in E.
    destruct (forallb (entry_okb i nodeIp) (NodesInstances results)) eqn:Hok;
      [|discriminate].
    destruct (FunctionsCapacity results !! i) as [capacity|] eqn:Hcap;
      [|discriminate].
    destruct (w_functions w !! fn) as [f|] eqn:Hf; [|discriminate].
    destruct (hd false (w_faults w)) eqn:Hfault; [discriminate|].
    econstructor; eauto.
    apply step_safeb_true. split; [exact Hok|]. rewrite Hcap. eauto.
Qed.

Lemma planned_complete (results : SolverResults) (nodeIp : list string)
    (i : nat) (functions : list string) (allocation plan : FunctionsAllocation)
    (w w' : World) :
  planned results nodeIp i functions allocation w plan w' ->
  computeFunctionsAllocation_range results functions i nodeIp allocation w
  = (Ret (inl plan), w').
Proof.
  induction 1 as [|i fn rest allocation plan w w' capacity f Hsafe Hcap Hf Hfault _ IH].
  - reflexivity.
  - rewrite computeFunctionsAllocation_range_cons. cbv zeta.
    apply step_safeb_true in Hsafe as [-> _].
    now rewrite Hcap, Hf, Hfault.
Qed.

(** A planning call runs through when every iteration indexes in range,
    every name is registered and no save fails. *)
Lemma planned_exists (results : SolverResults) (nodeIp : list string)
    (functions : list string) :
  forall (i : nat) (allocation : FunctionsAllocation) (w : World),
    (forall j, (j < length functions)%nat ->
               step_safeb results nodeIp (i + j) = true) ->
    all_registered w functions ->
    no_fault (length functions) w ->
    exists plan w', planned results nodeIp i functions allocation w plan w'.
Proof.
  induction functions as [|fn rest IH]; intros i allocation w Hsafe Hreg Hfault.
  - eexists _, _. constructor.
  - inversion Hreg as [|? ? [f Hf] Hreg']; subst.
    pose proof (Hsafe 0%nat ltac:(simpl; lia)) as H0.
    rewrite Nat.add_0_r in H0.
    pose proof H0 as H0'. apply step_safeb_true in H0' as [_ [capacity Hcap]].
    unfold no_fault in Hfault. simpl in Hfault.
    assert (hd false (w_faults w) = false
            /\ Forall (fun b => b = false) (take (length rest) (tl (w_faults w))))
      as [Hhd Htl].
    { destruct (w_faults w) as [|b fl]; simpl in *.
      - split; [reflexivity|]. rewrite take_nil. constructor.
      - inversion Hfault; subst. split; [reflexivity|assumption]. }
    destruct (IH (S i)
                (<[fn := {| Capacity := capacity;
                            Instances := instances_of (NodesInstances results)
                                           i nodeIp ∅ |}]> allocation)
                (persisted
                   (logged w (instances_log (NodesInstances results) i nodeIp))
                   (demanded w f capacity)))
      as (plan & w' & Hrun).
    + intros j Hj. replace (S i + j)%nat with (i + S j)%nat by lia.
      apply Hsafe. simpl. lia.
    + unfold all_registered in *. cbn [persisted logged with_trace
        with_functions w_functions].
      eapply Forall_impl; [exact Hreg'|]. intros name [g Hg]. cbn beta.
      destruct (decide (Name (demanded w f capacity) = name)) as [->|Hne].
      * rewrite lookup_insert_eq. eauto.
      * rewrite lookup_insert_ne by assumption. eauto.
    + unfold no_fault. exact Htl.
    + exists plan, w'. econstructor; eauto.
Qed.

(** *** What a completed planning call leaves behind *)

Lemma drop_tl {A} (n : nat) (l : list A) : drop n (tl l) = drop (S n) l.
Proof. destruct l; [simpl; now rewrite !drop_nil|reflexivity]. Qed.

Lemma persisted_wf (w : World) (t : list event) (f : Function)
    (name : string) (capacity : float64) :
  registry_wf w -> w_functions w !! name = Some f ->
  registry_wf (persisted (logged w t) (demanded w f capacity)).
Proof.
  intros Hw Hf n g. cbn [persisted logged answered with_trace
    with_functions with_faults w_functions demanded set_CPUDemand Name].
  rewrite lookup_insert. case_decide as Hd.
  - intros [= <-]. exact Hd.
  - apply Hw.
Qed.

Section Planned.
Variables (results : SolverResults) (nodeIp : list string).

Lemma planned_safe (i : nat) (functions : list string)
    (allocation plan : FunctionsAllocation) (w w' : World) :
  planned results nodeIp i functions allocation w plan w' ->
  forall j, (j < length functions)%nat ->
            step_safeb results nodeIp (i + j) = true.
Proof.
  induction 1 as [|i fn rest allocation plan w w' capacity f Hsafe Hcap Hf Hfault _ IH];
    intros j Hj; simpl in Hj; [lia|].
  destruct j as [|j]; [now rewrite Nat.add_0_r|].
  replace (i + S j)%nat with (S i + j)%nat by lia. apply IH. lia.
Qed.

Lemma planned_frame (i : nat) (functions : list string)
    (allocation plan : FunctionsAllocation) (w w' : World) :
  planned results nodeIp i functions allocation w plan w' ->
  w_resources w' = w_resources w
  /\ w_etcd w' = w_etcd w
  /\ w_client w' = w_client w
  /\ w_faults w' = drop (length functions) (w_faults w)
  /\ (exists t, w_trace w' = w_trace w ++ t)
  /\ (registry_wf w -> registry_wf w')
  /\ forall name, name ∉ functions ->
       plan !! name = allocation !! name
       /\ (registry_wf w -> w_functions w' !! name = w_functions w !! name).
Proof.
  induction 1 as [|i fn rest allocation plan w w' capacity f Hsafe Hcap Hf Hfault _ IH].
  - repeat split; try reflexivity; auto. exists []. now rewrite app_nil_r.
  - destruct IH as (Hres & Hetcd & Hclient & Hfl & [t Ht] & Hwf & Hout).
    assert (registry_wf w ->
            registry_wf
              (persisted
                 (logged w (instances_log (NodesInstances results) i nodeIp))
                 (demanded w f capacity))) as Hstep
      by (intros Hw; eapply persisted_wf; eauto).
    split; [now rewrite Hres|]. split; [now rewrite Hetcd|].
    split; [now rewrite Hclient|].
    split; [rewrite Hfl; cbn [persisted logged answered with_trace
              with_functions with_faults w_faults]; apply drop_tl|].
    split.
    { rewrite Ht. cbn [persisted logged answered with_trace with_functions
        with_faults w_trace]. rewrite <- !app_assoc. eauto. }
    split; [auto|].
    intros name Hnin. apply not_elem_of_cons in Hnin as [Hne Hnin].
    destruct (Hout name Hnin) as [Hplan Hstore]. split.
    + rewrite Hplan. now rewrite lookup_insert_ne.
    + intros Hw. rewrite Hstore by auto.
      cbn [persisted logged answered with_trace with_functions with_faults
           w_functions demanded set_CPUDemand Name].
      rewrite lookup_insert_ne; [reflexivity|].
      rewrite (Hw _ _ Hf). congruence.
Qed.

(** Every entry of the plan was there before or was built for one of the
    functions. *)
Lemma planned_origin (i : nat) (functions : list string)
    (allocation plan : FunctionsAllocation) (w w' : World) :
  planned results nodeIp i functions allocation w plan w' ->
  forall name fa,
    plan !! name = Some fa ->
    allocation !! name = Some fa
    \/ exists j capacity,
         functions !! j = Some name
         /\ FunctionsCapacity results !! (i + j)%nat = Some capacity
         /\ fa = {| Capacity := capacity;
                    Instances := instances_of (NodesInstances results)
                                   (i + j) nodeIp ∅ |}.
Proof.
  induction 1 as [|i fn rest allocation plan w w' capacity f Hsafe Hcap Hf Hfault _ IH];
    intros name fa Hfa; [now left|].
  destruct (IH name fa Hfa) as [Hin|(j & c & Hj & Hc & ->)].
  - rewrite lookup_insert in Hin. case_decide as Hd.
    + injection Hin as <-. subst name. right. exists 0%nat, capacity.
      rewrite Nat.add_0_r. auto.
    + now left.
  - right. exists (S j), c.
    replace (i + S j)%nat with (S i + j)%nat by lia. auto.
Qed.

(** With distinct names, every function has its entry in the plan. *)
Lemma planned_plan_lookup (i : nat) (functions : list string)
    (allocation plan : FunctionsAllocation) (w w' : World) :
  planned results nodeIp i functions allocation w plan w' ->
  NoDup functions ->
  forall j name,
    functions !! j = Some name ->
    exists capacity,
      FunctionsCapacity results !! (i + j)%nat = Some capacity
      /\ plan !! name
         = Some {| Capacity := capacity;
                   Instances := instances_of (NodesInstances results)
                                  (i + j) nodeIp ∅ |}.
Proof.
  induction 1 as [|i fn rest allocation plan w w' capacity f Hsafe Hcap Hf Hfault Hrun IH];
    intros Hnd j name Hj; [discriminate|].
  apply NoDup_cons in Hnd as [Hnin Hnd].
  destruct j as [|j]; simpl in Hj.
  - injection Hj as <-. rewrite Nat.add_0_r.
    exists capacity. split; [assumption|].
    destruct (planned_frame _ _ _ _ _ _ Hrun) as (_ & _ & _ & _ & _ & _ & Hout).
    destruct (Hout fn Hnin) as [-> _]. now rewrite lookup_insert_eq.
  - replace (i + S j)%nat with (S i + j)%nat by lia. now apply IH.
Qed.

(** With distinct names and a registry filed by name, every function has
    its updated record in the registry. *)
Lemma planned_store_lookup (i : nat) (functions : list string)
    (allocation plan : FunctionsAllocation) (w w' : World) :
  planned results nodeIp i functions allocation w plan w' ->
  NoDup functions ->
  registry_wf w ->
  forall j name,
    functions !! j = Some name ->
    exists capacity f,
      FunctionsCapacity results !! (i + j)%nat = Some capacity
      /\ w_functions w !! name = Some f
      /\ w_functions w' !! name = Some (demanded w f capacity).
Proof.
  induction 1 as [|i fn rest allocation plan w w' capacity f Hsafe Hcap Hf Hfault Hrun IH];
    intros Hnd Hw j name Hj; [discriminate|].
  apply NoDup_cons in Hnd as [Hnin Hnd].
  assert (registry_wf
            (persisted
               (logged w (instances_log (NodesInstances results) i nodeIp))
               (demanded w f capacity))) as Hstep by (eapply persisted_wf; eauto).
  destruct j as [|j]; simpl in Hj.
  - injection Hj as <-. rewrite Nat.add_0_r.
    exists capacity, f. do 2 (split; [assumption|]).
    destruct (planned_frame _ _ _ _ _ _ Hrun) as (_ & _ & _ & _ & _ & _ & Hout).
    destruct (Hout fn Hnin) as [_ ->]; [|assumption].
    cbn [persisted logged answered with_trace with_functions with_faults
         w_functions demanded set_CPUDemand Name].
    rewrite (Hw _ _ Hf). now rewrite lookup_insert_eq.
  - destruct (IH Hnd Hstep j name Hj) as (c & g & Hc & Hg & Hstore).
    replace (i + S j)%nat with (S i + j)%nat by lia.
    assert (name <> fn) as Hne.
    { intros ->. apply Hnin. apply list_elem_of_lookup. eauto. }
    cbn [persisted logged answered with_trace with_functions with_faults
         w_functions demanded set_CPUDemand Name w_resources] in Hg, Hstore.
    rewrite (Hw _ _ Hf) in Hg. rewrite lookup_insert_ne in Hg by congruence.
    exists c, g. auto.
Qed.

End Planned.

(** ** The instance map of one function *)

Section Instances.
Variables (i : nat) (nodeIp : list string).

Lemma instances_of_cons (e : Z * list iface) (rest : list (Z * list iface))
    (acc : gmap string Z) :
  instances_of (e :: rest) i nodeIp acc
  = instances_of rest i nodeIp (instance_entry i nodeIp acc e).
Proof. reflexivity. Qed.

Lemma instance_entry_lookup (acc : gmap string Z) (e : Z * list iface)
    (ip : string) :
  instance_entry i nodeIp acc e !! ip
  = match snd e !! i with
    | Some (IFloat64 f) =>
        if decide (nth_ip nodeIp (fst e) = Some ip) then Some (to_int f)
        else acc !! ip
    | _ => acc !! ip
    end.
Proof.
  unfold instance_entry. destruct (snd e !! i) as [[| | f | | |]|]; try reflexivity.
  destruct (nth_ip nodeIp (fst e)) as [a|].
  - rewrite lookup_insert. destruct (decide (a = ip)) as [->|Hne].
    + now rewrite decide_True.
    + rewrite decide_False by congruence. reflexivity.
  - now rewrite decide_False.
Qed.

Lemma instances_of_origin (nodesInstances : list (Z * list iface)) :
  forall (acc : gmap string Z) (ip : string) (n : Z),
    instances_of nodesInstances i nodeIp acc !! ip = Some n ->
    acc !! ip = Some n \/ writes i nodeIp nodesInstances ip n.
Proof.
  induction nodesInstances as [|[key instances] rest IH]; intros acc ip n Hn.
  - now left.
  - rewrite instances_of_cons in Hn.
    destruct (IH _ _ _ Hn) as [Hacc|(k & l & f & Hin & Hl & Hk & ->)].
    + rewrite instance_entry_lookup in Hacc. simpl in Hacc.
      destruct (instances !! i) as [[| | f | | |]|] eqn:Hv; auto.
      case_decide as Hd; auto.
      injection Hacc as <-. right. exists key, instances, f.
      repeat split; auto. left.
    + right. exists k, l, f. repeat split; auto. now right.
Qed.

Lemma instances_of_frame (nodesInstances : list (Z * list iface)) :
  forall (acc : gmap string Z) (ip : string),
    (forall n, ~ writes i nodeIp nodesInstances ip n) ->
    instances_of nodesInstances i nodeIp acc !! ip = acc !! ip.
Proof.
  induction nodesInstances as [|[key instances] rest IH]; intros acc ip Hno.
  - reflexivity.
  - rewrite instances_of_cons, IH.
    + rewrite instance_entry_lookup. simpl.
      destruct (instances !! i) as [[| | f | | |]|] eqn:Hv; auto.
      case_decide as Hd; auto.
      exfalso. apply (Hno (to_int f)). exists key, instances, f.
      repeat split; auto. left.
    + intros n (k & l & f & Hin & Hl & Hk & ->).
      apply (Hno (to_int f)). exists k, l, f. repeat split; auto. now right.
Qed.

(** When no two node keys share an IP, the entry of a key decides the count
    of its IP. *)
Lemma instances_of_lookup (nodesInstances : list (Z * list iface))
    (key : Z) (instances : list iface) (ip : string) :
  NoDup (map fst nodesInstances) ->
  (forall key' instances',
     (key', instances') ∈ nodesInstances ->
     nth_ip nodeIp key' = Some ip -> key' = key) ->
  (key, instances) ∈ nodesInstances ->
  nth_ip nodeIp key = Some ip ->
  forall acc,
    instances_of nodesInstances i nodeIp acc !! ip
    = match instances !! i with
      | Some (IFloat64 f) => Some (to_int f)
      | _ => acc !! ip
      end.
Proof.
  induction nodesInstances as [|[k l] rest IH]; intros Hnd Huniq Hin Hip acc.
  - inversion Hin.
  - simpl in Hnd. apply NoDup_cons in Hnd as [Hk Hnd].
    rewrite instances_of_cons.
    apply elem_of_cons in Hin as [Heq|Hin].
    + injection Heq as <- <-.
      rewrite instances_of_frame.
      * rewrite instance_entry_lookup. simpl.
        destruct (instances !! i) as [[| | f | | |]|]; auto.
        now rewrite decide_True.
      * intros n (k' & l' & f & Hin' & _ & Hk' & _).
        apply Hk. assert (k' = key) as <- by (apply (Huniq k' l'); auto; now right).
        apply list_elem_of_fmap. exists (k', l'). auto.
    + rewrite IH; auto.
      * destruct (instances !! i) as [[| | f | | |]|]; auto;
          rewrite instance_entry_lookup; simpl;
          destruct (l !! i) as [[| | g | | |]|]; auto;
          case_decide as Hd; auto;
          exfalso; apply Hk;
          (assert (k = key) as -> by (apply (Huniq k l); auto; left));
          apply list_elem_of_fmap; exists (key, instances); auto.
      * intros k' l' Hin'. apply (Huniq k' l'). now right.
Qed.


End Instances.

(** ** float64 to int *)

Lemma to_int_nonneg (x : float64) :
  nonneg_in_range x -> 0 <= to_int x <= max_int.
Proof.
  unfold nonneg_in_range, to_int.
  destruct x as [s| s | | [] m e]; try tauto.
  - intros _. unfold max_int. lia.
  - intros Hmax. cbn [cond_Zopp].
    set (mag := if 0 <=? e then Z.shiftl (Z.pos m) e
                else Z.shiftr (Z.pos m) (- e)) in *.
    assert (0 <= mag) as Hpos.
    { subst mag. destruct (0 <=? e).
      - apply Z.shiftl_nonneg. lia.
      - apply Z.shiftr_nonneg. lia. }
    replace ((min_int <=? mag) && (mag <=? max_int)) with true; [lia|].
    symmetry. rewrite andb_true_iff, !Z.leb_le. unfold min_int. lia.
Qed.

(** [Round] takes a float that has a fraction, of magnitude [m / 2^d], to
    the integer [k] nearest to that magnitude, the half going up: away from
    zero once the sign is put back. *)
Lemma Round_half_away (s : bool) (m : positive) (e : Z) :
  e < 0 ->
  exists k,
    Round (S754_finite s m e) = binary_normalize prec emax (cond_Zopp s k) 0 s
    /\ 2 * Z.pos m - 2 ^ (- e) < 2 * k * 2 ^ (- e) <= 2 * Z.pos m + 2 ^ (- e).
Proof.
  intros He. unfold Round.
  replace (0 <=? e) with false by (symmetry; apply Z.leb_gt; lia).
  set (d := - e). assert (0 < d) as Hd by (subst d; lia).
  set (q := Z.shiftr (Z.pos m) d).
  assert (q = Z.pos m / 2 ^ d) as Hq
    by (subst q; apply Z.shiftr_div_pow2; lia).
  assert (Z.shiftl q d = q * 2 ^ d) as Hshl
    by (apply Z.shiftl_mul_pow2; lia).
  assert (Z.shiftl 1 (d - 1) = 2 ^ (d - 1)) as Hhalf
    by (rewrite Z.shiftl_mul_pow2 by lia; lia).
  assert (2 ^ d = 2 * 2 ^ (d - 1)) as Hpow.
  { replace d with (1 + (d - 1)) at 1 by lia.
    rewrite Z.pow_add_r by lia. reflexivity. }
  assert (0 < 2 ^ (d - 1)) as Hpos by (apply Z.pow_pos_nonneg; lia).
  pose proof (Z.div_mod (Z.pos m) (2 ^ d) ltac:(lia)) as Hdm.
  pose proof (Z.mod_pos_bound (Z.pos m) (2 ^ d) ltac:(lia)) as Hmod.
  rewrite Hshl, Hhalf.
  eexists. split; [reflexivity|].
  destruct (2 ^ (d - 1) <=? Z.pos m - q * 2 ^ d) eqn:Hcmp.
  - apply Z.leb_le in Hcmp. nia.
  - apply Z.leb_gt in Hcmp. nia.
Qed.

(** 150.0 over 200 is the demand 0.75. *)
Example cpuDemand_150_200 :
  cpuDemand (of_Z 150) (of_Z 200) = of_scaled 3 (-2)
  /\ of_scaled 3 (-2) = div (of_Z 75) (of_Z 100).
Proof. split; vm_compute; reflexivity. Qed.

(** 3.0 is the count 3; a fraction is dropped towards zero. *)
Example to_int_examples :
  to_int (of_Z 3) = 3
  /\ to_int (of_scaled 11 (-2)) = 2
  /\ to_int (of_scaled (-11) (-2)) = -2.
Proof. repeat split; vm_compute; reflexivity. Qed.

(** ** The planner: demand, counts and bounds *)


Lemma demo_registry_wf : registry_wf Demo.world.
Proof.
  intros name f. cbn [Demo.world w_functions]. unfold Demo.registry.
  intros E.
  apply lookup_insert_Some in E as [[<- <-]|[_ E]]; [reflexivity|].
  apply lookup_insert_Some in E as [[<- <-]|[_ E]]; [reflexivity|].
  now rewrite lookup_empty in E.
Qed.

Lemma demo_functions_NoDup : NoDup Demo.functions.
Proof.
  unfold Demo.functions. apply NoDup_cons. split.
  - intros Hin. apply list_elem_of_singleton in Hin. discriminate Hin.
  - apply NoDup_singleton.
Qed.


(** C9 as stated fails: a response with the count -1.0 yields a plan with
    the instance count -1. *)
Lemma negative_instance_count :
  exists plan w' fa,
    computeFunctionsAllocation Negative.results ["f"%string]
      ["10.0.0.9"%string] Negative.world = (Ret (inl plan), w')
    /\ plan !! "f"%string = Some fa
    /\ Instances fa !! "10.0.0.9"%string = Some (-1).
Proof.
  exists (<["f"%string :=
             {| Capacity := of_Z 150;
                Instances := <["10.0.0.9"%string := -1]> ∅ |}]> ∅),
         (snd (computeFunctionsAllocation Negative.results ["f"%string]
                 ["10.0.0.9"%string] Negative.world)),
         {| Capacity := of_Z 150;
            Instances := <["10.0.0.9"%string := -1]> ∅ |}.
  split; [|split]; vm_compute; reflexivity.
Qed.

(** C9, amended. Every instance count of a plan produced by planning is the
    integer part of a number of the solver response; when those numbers are
    non-negative and fit an [int], every instance count is non-negative. *)
Theorem instance_counts_nonneg (results : SolverResults)
    (functions nodeIp : list string) (w w' : World)
    (plan : FunctionsAllocation) :
  computeFunctionsAllocation results functions nodeIp w
  = (Ret (inl plan), w') ->
  counts_nonneg results ->
  forall (name ip : string) (fa : FunctionAllocation) (n : Z),
    plan !! name = Some fa ->
    Instances fa !! ip = Some n ->
    0 <= n <= max_int
    /\ exists key instances i f,
         (key, instances) ∈ NodesInstances results
         /\ instances !! i = Some (IFloat64 f)
         /\ n = to_int f.
Proof.
  intros Hrun Hpos name ip fa n Hfa Hn.
  apply planned_sound in Hrun.
  destruct (planned_origin _ _ _ _ _ _ _ _ Hrun name fa Hfa)
    as [Hempty|(j & capacity & Hj & Hcap & ->)].
  - rewrite lookup_empty in Hempty. discriminate.
  - cbn [Instances] in Hn.
    destruct (instances_of_origin _ _ _ _ _ _ Hn)
      as [Hempty|(key & instances & f & Hin & Hv & Hip & ->)].
    + rewrite lookup_empty in Hempty. discriminate.
    + split.
      * apply to_int_nonneg. apply (Hpos key instances f Hin).
        apply list_elem_of_lookup. eauto.
      * exists key, instances, (0 + j)%nat, f. auto.
Qed.

Lemma demo_counts_nonneg : counts_nonneg Demo.results.
Proof.
  intros key instances f Hin Hf. cbn [Demo.results NodesInstances] in Hin.
  repeat (apply elem_of_cons in Hin as [Hin|Hin];
          [injection Hin as -> ->;
           repeat (apply elem_of_cons in Hf as [Hf|Hf];
                   [try discriminate Hf; injection Hf as ->;
                    vm_compute; intros E; discriminate E|]);
           inversion Hf|]).
  inversion Hin.
Qed.

Lemma instance_counts_nonneg_witness :
  0 <= 3 <= max_int
  /\ exists key instances i f,
       (key, instances) ∈ NodesInstances Demo.results
       /\ instances !! i = Some (IFloat64 f)
       /\ 3 = to_int f.
Proof.
  apply (instance_counts_nonneg Demo.results Demo.functions Demo.nodeIp
           Demo.world
           (snd (computeFunctionsAllocation Demo.results Demo.functions
                   Demo.nodeIp Demo.world))
           Demo.plan eq_refl demo_counts_nonneg
           "f"%string "10.0.0.1"%string
           {| Capacity := of_Z 150;
              Instances := <["10.0.0.1"%string := 3]>
                             (<["10.0.0.9"%string := 1]> ∅) |}
           3 eq_refl eq_refl).
Defined.

(** *** Indexing in range *)



Lemma nth_ip_is_Some (nodeIp : list string) (key : Z) :
  is_Some (nth_ip nodeIp key) <-> 0 <= key < len nodeIp.
Proof.
  unfold nth_ip, len. destruct (0 <=? key) eqn:Hk.
  - apply Z.leb_le in Hk. rewrite lookup_lt_is_Some. lia.
  - apply Z.leb_gt in Hk. split; [intros [? ?]; discriminate|lia].
Qed.

Lemma response_fits_safe (results : SolverResults)
    (functions nodeIp : list string) :
  response_fits results functions nodeIp ->
  forall j, (j < length functions)%nat ->
            step_safeb results nodeIp j = true.
Proof.
  intros [Hcap Hentries] j Hj. apply step_safeb_true. split.
  - apply forallb_forall. intros e He.
    apply list_elem_of_In in He.
    rewrite Forall_forall in Hentries.
    destruct (Hentries e He) as [Hlen Hkey].
    unfold entry_okb.
    destruct (lookup_lt_is_Some_2 (snd e) j ltac:(lia)) as [v ->].
    destruct (as_float64 v); [|reflexivity].
    apply bool_decide_eq_true. now apply nth_ip_is_Some.
  - apply lookup_lt_is_Some. lia.
Qed.



Lemma demo_response_fits :
  response_fits Demo.results Demo.functions Demo.nodeIp.
Proof.
  split; [simpl; lia|].
  repeat constructor; simpl; unfold len; simpl; lia.
Qed.


(** Each part of the shape is needed: without it the call panics. *)
Example short_capacity_panics :
  fst (computeFunctionsAllocation Misfit.short_capacity Demo.functions
         Demo.nodeIp Demo.world) = Panic.
Proof. vm_compute. reflexivity. Qed.

Example short_instances_panics :
  fst (computeFunctionsAllocation Misfit.short_instances Demo.functions
         Demo.nodeIp Demo.world) = Panic.
Proof. vm_compute. reflexivity. Qed.

Example foreign_key_panics :
  fst (computeFunctionsAllocation Misfit.foreign_key Demo.functions
         Demo.nodeIp Demo.world) = Panic.
Proof. vm_compute. reflexivity. Qed.

(** *** A save that fails part-way *)

Lemma range_app_planned (results : SolverResults) (nodeIp : list string)
    (i : nat) (pre : list string) (allocation plan : FunctionsAllocation)
    (w w' : World) (post : list string) :
  planned results nodeIp i pre allocation w plan w' ->
  computeFunctionsAllocation_range results (pre ++ post) i nodeIp allocation w
  = computeFunctionsAllocation_range results post (i + length pre) nodeIp
      plan w'.
Proof.
  induction 1 as [|i fn rest allocation plan w w' capacity f Hsafe Hcap Hf Hfault _ IH].
  - simpl. now rewrite Nat.add_0_r.
  - cbn [app length]. rewrite computeFunctionsAllocation_range_cons. cbv zeta.
    apply step_safeb_true in Hsafe as [-> _].
    rewrite Hcap, Hf, Hfault, IH. f_equal. lia.
Qed.

(** C6. When the save of the record at index [j] fails, after the records
    before it were saved, planning returns an error and no plan; the
    records before [j] stay in the registry with their new CPU demand, and
    the records from [j] on are as they were. *)
Theorem planning_not_atomic (results : SolverResults)
    (functions nodeIp : list string) (w : World) (j : nat)
    (later : list bool) :
  w_faults w = replicate j false ++ true :: later ->
  (j < length functions)%nat ->
  (forall k, (k <= j)%nat -> step_safeb results nodeIp k = true) ->
  all_registered w (take (S j) functions) ->
  NoDup functions ->
  registry_wf w ->
  exists e w',
    computeFunctionsAllocation results functions nodeIp w
    = (Ret (inr e), w')
    /\ (forall (i : nat) (name : string),
          (i < j)%nat -> functions !! i = Some name ->
          exists capacity f,
            FunctionsCapacity results !! i = Some capacity
            /\ w_functions w' !! name = Some f
            /\ CPUDemand f
               = cpuDemand capacity (res_MaximumCapacity (w_resources w)))
    /\ (forall (i : nat) (name : string),
          (j <= i)%nat -> functions !! i = Some name ->
          w_functions w' !! name = w_functions w !! name).
Proof.
  intros Hfaults Hj Hsafe Hreg Hnd Hwf.
  destruct (lookup_lt_is_Some_2 functions j Hj) as [fnj Hfnj].
  pose proof (take_drop_middle functions j fnj Hfnj) as Hsplit.
  set (pre := take j functions) in *.
  set (post := drop (S j) functions) in *.
  assert (length pre = j) as Hpre by (subst pre; rewrite length_take; lia).
  rewrite <- Hsplit in Hnd. apply NoDup_app in Hnd as (Hndpre & Hdisj & Hndpost).
  assert (all_registered w pre /\ is_Some (w_functions w !! fnj))
    as [Hregpre [f Hf]].
  { unfold all_registered in *.
    rewrite (take_S_r functions j fnj Hfnj) in Hreg.
    apply Forall_app in Hreg as [Hreg1 Hreg2].
    split; [exact Hreg1|]. now inversion Hreg2. }
  destruct (planned_exists results nodeIp pre 0 ∅ w) as (plan1 & w1 & Hrun).
  { intros k Hk. apply Hsafe. simpl. lia. }
  { exact Hregpre. }
  { unfold no_fault. rewrite Hfaults, Hpre.
    rewrite take_app_le by (rewrite length_replicate; lia).
    rewrite take_replicate, Nat.min_id.
    apply Forall_forall. intros b Hb.
    now apply elem_of_replicate in Hb as [-> _]. }
  destruct (planned_frame _ _ _ _ _ _ _ _ Hrun)
    as (Hres & _ & _ & Hfl & _ & _ & Hout).
  assert (fnj ∉ pre) as Hfresh.
  { intros Hin. apply (Hdisj fnj Hin). left. }
  destruct (Hout fnj Hfresh) as [_ Hsame].
  pose proof (Hsafe j (Nat.le_refl j)) as Hsj.
  apply step_safeb_true in Hsj as [Hok [capacity Hcap]].
  unfold computeFunctionsAllocation. rewrite <- Hsplit.
  rewrite (range_app_planned _ _ _ _ _ _ _ _ _ Hrun).
  rewrite computeFunctionsAllocation_range_cons. cbv zeta.
  simpl (0 + length pre)%nat. rewrite Hpre, Hok, Hcap, (Hsame Hwf), Hf.
  rewrite Hfl, Hpre, Hfaults.
  rewrite drop_app_length' by now rewrite length_replicate.
  cbn [hd].
  eexists _, _. split; [reflexivity|].
  cbn [refused logged answered with_trace with_faults w_functions].
  split.
  - intros i name Hi Hname.
    assert (pre !! i = Some name) as Hprei.
    { rewrite lookup_app_l in Hname by lia. exact Hname. }
    destruct (planned_store_lookup _ _ _ _ _ _ _ _ Hrun Hndpre Hwf i name Hprei)
      as (c & g & Hc & _ & Hstore).
    exists c, (demanded w g c). auto.
  - intros i name Hi Hname.
    assert (name ∉ pre) as Hnin.
    { intros Hin. apply (Hdisj name Hin).
      rewrite lookup_app_r in Hname by lia.
      apply list_elem_of_lookup. eauto. }
    destruct (Hout name Hnin) as [_ Hst]. now apply Hst.
Qed.

Lemma demo_flaky_registry_wf : registry_wf Demo.flaky.
Proof. exact demo_registry_wf. Qed.

Lemma planning_not_atomic_witness :
  exists e w',
    computeFunctionsAllocation Demo.results Demo.functions Demo.nodeIp
      Demo.flaky = (Ret (inr e), w')
    /\ (forall (i : nat) (name : string),
          (i < 1)%nat -> Demo.functions !! i = Some name ->
          exists capacity f,
            FunctionsCapacity Demo.results !! i = Some capacity
            /\ w_functions w' !! name = Some f
            /\ CPUDemand f
               = cpuDemand capacity
                   (res_MaximumCapacity (w_resources Demo.flaky)))
    /\ (forall (i : nat) (name : string),
          (1 <= i)%nat -> Demo.functions !! i = Some name ->
          w_functions w' !! name = w_functions Demo.flaky !! name).
Proof.
  apply (planning_not_atomic Demo.results Demo.functions Demo.nodeIp
           Demo.flaky 1%nat []).
  - reflexivity.
  - simpl. lia.
  - intros [|[|k]] Hk; [reflexivity|reflexivity|lia].
  - repeat constructor; simpl; eauto.
  - exact demo_functions_NoDup.
  - exact demo_flaky_registry_wf.
Defined.

(** ** Peer addresses *)

Lemma substring_prefix (s t : string) :
  String.substring 0 (String.length s) (String.append s t) = s.
Proof. induction s as [|c s IH]; simpl; [now destruct t|now rewrite IH]. Qed.

Lemma length_append (s t : string) :
  String.length (String.append s t) = (String.length s + String.length t)%nat.
Proof. induction s as [|c s IH]; simpl; [reflexivity|now rewrite IH]. Qed.

(** The cut is the host when the URL is [http://], the host, a colon and a
    port of four characters. *)
Lemma peer_ip_four_character_port (host port : string) :
  String.length port = 4%nat ->
  peer_ip (String.append "http://"
             (String.append host (String.append ":" port))) = host.
Proof.
  intros Hport. unfold peer_ip.
  set (rest := String.append host (String.append ":" port)).
  assert (String.length rest = String.length host + 5)%nat as Hrest.
  { subst rest. rewrite !length_append, Hport. simpl. lia. }
  replace (String.length (String.append "http://" rest) - 12)%nat
    with (String.length host)
    by (rewrite length_append, Hrest; cbn [String.length]; lia).
  cbn [String.append String.substring]. apply substring_prefix.
Qed.

(** C3, at a peer that serves on port 80. The snapshot lists the text
    [10.0.0], cut at fixed offsets, where the host of the URL is
    [10.0.0.3]. *)
Theorem peer_ip_fixed_offsets :
  option_map snd (returned (fst (prepareNodeInfo [short_port_peer] Demo.world)))
  = Some ["10.0.0"%string; "10.0.0.9"%string]
  /\ url_host (Url (snd short_port_peer)) = Some "10.0.0.3"%string.
Proof. split; vm_compute; reflexivity. Qed.

(** ** The solve cycle *)

Lemma emitted_logged {A} (m : M A) (w : World) (a : outcome A)
    (t : list event) :
  m w = (a, logged w t) -> emitted m w = t.
Proof.
  intros E. unfold emitted. rewrite E. cbn [snd logged with_trace w_trace].
  now rewrite drop_app_length.
Qed.

(** C1 as stated fails: with no peer and one function the cycle calls the
    solver and publishes. *)
Lemma solve_runs_without_peers :
  w_servers Lone.world = []
  /\ fst (@solve Lone.foreign Lone.world) = Ret tt
  /\ existsb is_solver_call (emitted (@solve Lone.foreign) Lone.world) = true
  /\ existsb is_publish (emitted (@solve Lone.foreign) Lone.world) = true.
Proof. repeat split; vm_compute; reflexivity. Qed.

Section Cycle.
Context `{Foreign}.

(** C1, amended. With an empty function list [solve] only logs that it
    runs: no call to the solver, no publish. The node count includes the
    local node and is never zero, so a lack of peers does not stop the
    cycle. *)
Theorem solve_noop_without_functions (w : World) :
  w_all_functions w = inl [] ->
  solve w = (Ret tt, logged w [EvLog LogRunningSolver])
  /\ quiet (emitted solve w) = true
  /\ (len (w_servers w) + 1 =? 0) = false.
Proof.
  intros Hnone.
  assert (solve w = (Ret tt, logged w [EvLog LogRunningSolver])) as E.
  { unfold solve, log, emit. erewrite bind_ret; [|reflexivity].
    unfold GetServersMap. erewrite bind_ret; [|reflexivity].
    unfold GetAll. erewrite bind_ret; [|reflexivity].
    cbn [with_trace w_all_functions]. rewrite Hnone.
    cbn [len length Z.of_nat Z.eqb]. now rewrite orb_true_r. }
  split; [exact E|]. split.
  - now rewrite (emitted_logged _ _ _ _ E).
  - apply Z.eqb_neq. unfold len. lia.
Qed.

End Cycle.

Lemma solve_noop_without_functions_witness :
  @solve Demo.foreign Demo.idle
  = (Ret tt, logged Demo.idle [EvLog LogRunningSolver])
  /\ quiet (emitted (@solve Demo.foreign) Demo.idle) = true
  /\ (len (w_servers Demo.idle) + 1 =? 0) = false.
Proof. apply (@solve_noop_without_functions Demo.foreign Demo.idle). reflexivity. Defined.

(** ** Publishing and fetching the plan *)

Section Store.
Context `{Foreign}.

Lemma Grant_spec (ttl : Z) (w : World) :
  Grant ttl w
  = if hd false (w_faults w)
    then (Ret (inr "etcd: request failed"%string),
          logged (answered w) [EvGrant ttl false])
    else (Ret (inl (next_lease (w_etcd w))),
          logged (granted (answered w) ttl) [EvGrant ttl true]).
Proof.
  unfold Grant. erewrite bind_ret; [|apply next_fault_spec].
  destruct (hd false (w_faults w)); reflexivity.
Qed.

Lemma Put_spec (key value : string) (lease : Z) (w : World) :
  Put key value lease w
  = if hd false (w_faults w)
    then (Ret (Some "etcd: request failed"%string),
          logged (answered w) [EvPut key value lease false])
    else if alive (w_etcd w) lease
    then (Ret None,
          logged (bound (answered w) key value lease)
            [EvPut key value lease true])
    else (Ret (Some "etcd: requested lease not found"%string),
          logged (answered w) [EvPut key value lease false]).
Proof.
  unfold Put. erewrite bind_ret; [|apply next_fault_spec].
  destruct (hd false (w_faults w)); [reflexivity|].
  unfold bind at 1, put_key. cbn [answered with_faults w_etcd].
  destruct (alive (w_etcd w) lease); reflexivity.
Qed.

Lemma Get_spec (key : string) (w : World) :
  Get key w
  = if hd false (w_faults w)
    then (Ret (inr "etcd: request failed"%string),
          logged (answered w) [EvGet key false])
    else (Ret (inl match kv (w_etcd w) !! key with
                   | Some (value, lease) =>
                       if alive (w_etcd w) lease then [value] else []
                   | None => []
                   end),
          logged (answered w) [EvGet key true]).
Proof.
  unfold Get. erewrite bind_ret; [|apply next_fault_spec].
  destruct (hd false (w_faults w)); reflexivity.
Qed.

(** What a successful publish leaves in the coordination store. *)
Lemma saveAllocationToEtcd_published (allocation : FunctionsAllocation)
    (w w1 : World) :
  saveAllocationToEtcd allocation w = (Ret None, w1) ->
  exists payload,
    json_Marshal allocation = Some payload
    /\ kv (w_etcd w1) !! "allocation"%string
       = Some (payload, next_lease (w_etcd w))
    /\ leases (w_etcd w1) !! next_lease (w_etcd w)
       = Some (now (w_etcd w) + 60)
    /\ now (w_etcd w1) = now (w_etcd w)
    /\ w_client w1 = w_client w
    /\ w_faults w1 = drop 2 (w_faults w)
    /\ w_trace w1
       = w_trace w ++ [EvGrant 60 true;
                       EvPut "allocation" payload (next_lease (w_etcd w)) true].
Proof.
  unfold saveAllocationToEtcd, GetEtcdClient.
  erewrite bind_ret; [|reflexivity].
  destruct (w_client w) eqn:Hclient; [|discriminate].
  destruct (json_Marshal allocation) as [payload|]; [|discriminate].
  unfold bind at 1. rewrite Grant_spec.
  destruct (hd false (w_faults w)) eqn:Hf1; [discriminate|].
  unfold bind at 1. rewrite Put_spec.
  cbn [logged granted answered with_etcd with_trace with_faults w_faults
       w_etcd w_trace].
  destruct (hd false (tl (w_faults w))) eqn:Hf2; [discriminate|].
  unfold alive. cbn [leases now]. rewrite lookup_insert_eq.
  replace (now (w_etcd w) <? now (w_etcd w) + 60) with true
    by (symmetry; apply Z.ltb_lt; lia).
  unfold ret. intros E. injection E as <-.
  exists payload.
  cbn [logged bound granted answered with_etcd with_trace with_faults
       w_faults w_etcd w_trace leases now kv next_lease w_client].
  rewrite !lookup_insert_eq, <- app_assoc.
  repeat split; try reflexivity; auto.
  destruct (w_faults w) as [|? [|? ?]]; reflexivity.
Qed.

Lemma getAllocationFromEtcd_fetches (reader : World) (payload : string)
    (lease expiry : Z) :
  w_client reader = true ->
  hd false (w_faults reader) = false ->
  kv (w_etcd reader) !! "allocation"%string = Some (payload, lease) ->
  leases (w_etcd reader) !! lease = Some expiry ->
  fst (getAllocationFromEtcd reader)
  = if now (w_etcd reader) <? expiry
    then match json_Unmarshal payload with
         | Some allocation => Ret (inl allocation)
         | None => Ret (inr "Failed to unmarshal allocation"%string)
         end
    else Ret (inr "No data found for key 'allocation'"%string).
Proof.
  intros Hclient Hfault Hkv Hlease.
  unfold getAllocationFromEtcd, GetEtcdClient.
  erewrite bind_ret; [|reflexivity]. rewrite Hclient.
  unfold bind at 1. rewrite Get_spec, Hfault, Hkv.
  unfold alive. rewrite Hlease.
  destruct (now (w_etcd reader) <? expiry); [|reflexivity].
  destruct (json_Unmarshal payload); reflexivity.
Qed.


(** Once the lease is over the key has no value. *)
Lemma publish_then_get_expired (allocation : FunctionsAllocation)
    (w w1 reader : World) (d : Z) :
  saveAllocationToEtcd allocation w = (Ret None, w1) ->
  60 <= d ->
  w_etcd reader = w_etcd (elapse d w1) ->
  w_client reader = true ->
  hd false (w_faults reader) = false ->
  fst (getAllocationFromEtcd reader)
  = Ret (inr "No data found for key 'allocation'"%string).
Proof.
  intros Hsave Hd Hview Hclient Hfault.
  destruct (saveAllocationToEtcd_published _ _ _ Hsave)
    as (payload & Hpayload & Hkv & Hlease & Hnow & _).
  rewrite (getAllocationFromEtcd_fetches reader payload
             (next_lease (w_etcd w)) (now (w_etcd w) + 60));
    try assumption.
  - rewrite Hview. cbn [elapse with_etcd w_etcd now]. rewrite Hnow.
    replace (now (w_etcd w) + d <? now (w_etcd w) + 60) with false
      by (symmetry; apply Z.ltb_ge; lia).
    reflexivity.
  - rewrite Hview. exact Hkv.
  - rewrite Hview. exact Hlease.
Qed.

End Store.

(** ** Coercion of instance counts *)

Lemma planned_plan_of (results : SolverResults) (nodeIp : list string)
    (i : nat) (functions : list string) (allocation plan : FunctionsAllocation)
    (w w' : World) :
  planned results nodeIp i functions allocation w plan w' ->
  plan = plan_of results functions i nodeIp allocation.
Proof.
  induction 1 as [|i fn rest allocation plan w w' capacity f Hsafe Hcap Hf Hfault _ IH].
  - reflexivity.
  - cbn [plan_of]. now rewrite Hcap.
Qed.

Lemma instances_log_contains (nodesInstances : list (Z * list iface))
    (i : nat) (nodeIp : list string) (key : Z) (instances : list iface)
    (v : iface) :
  forallb (entry_okb i nodeIp) nodesInstances = true ->
  (key, instances) ∈ nodesInstances ->
  instances !! i = Some v ->
  as_float64 v = None ->
  EvLog (LogExpectedFloat64 v i key) ∈ instances_log nodesInstances i nodeIp.
Proof.
  induction nodesInstances as [|[k l] rest IH]; intros Hok Hin Hv Hnum.
  - inversion Hin.
  - cbn [forallb] in Hok. apply andb_true_iff in Hok as [Hhead Hok].
    cbn [instances_log fst snd]. unfold entry_okb in Hhead. cbn [fst snd] in Hhead.
    apply elem_of_cons in Hin as [Heq|Hin].
    + injection Heq as <- <-. rewrite Hv, Hnum. left.
    + destruct (l !! i) as [u|]; [|discriminate].
      destruct (as_float64 u).
      * apply bool_decide_eq_true in Hhead as [a ->]. now apply IH.
      * right. now apply IH.
Qed.

Lemma planned_logs (results : SolverResults) (nodeIp : list string)
    (i : nat) (functions : list string) (allocation plan : FunctionsAllocation)
    (w w' : World) :
  planned results nodeIp i functions allocation w plan w' ->
  forall j e,
    (j < length functions)%nat ->
    e ∈ instances_log (NodesInstances results) (i + j) nodeIp ->
    e ∈ w_trace w'.
Proof.
  induction 1 as [|i fn rest allocation plan w w' capacity f Hsafe Hcap Hf Hfault Hrun IH];
    intros j e Hj He; simpl in Hj; [lia|].
  destruct j as [|j].
  - rewrite Nat.add_0_r in He.
    destruct (planned_frame _ _ _ _ _ _ _ _ Hrun) as (_ & _ & _ & _ & [t Ht] & _).
    rewrite Ht. apply elem_of_app. left.
    cbn [persisted logged answered with_trace with_functions with_faults
         w_trace].
    apply elem_of_app. left. apply elem_of_app. now right.
  - apply (IH j e); [lia|].
    now replace (S i + j)%nat with (i + S j)%nat by lia.
Qed.

Lemma nth_ip_inj (nodeIp : list string) (key key' : Z) (ip : string) :
  NoDup nodeIp ->
  nth_ip nodeIp key = Some ip -> nth_ip nodeIp key' = Some ip -> key' = key.
Proof.
  unfold nth_ip. intros Hnd Hk Hk'.
  destruct (0 <=? key) eqn:H0; [|discriminate].
  destruct (0 <=? key') eqn:H0'; [|discriminate].
  apply Z.leb_le in H0, H0'.
  pose proof (NoDup_lookup _ _ _ _ Hnd Hk Hk'). lia.
Qed.

(** Planning runs through on a response that fits, whatever the dynamic
    type of its entries; a number becomes the count of its node's IP, and
    anything else is logged and leaves that IP without a count. *)
Lemma planning_coerces (results : SolverResults)
    (functions nodeIp : list string) (w : World) :
  response_fits results functions nodeIp ->
  all_registered w functions ->
  no_fault (length functions) w ->
  NoDup functions ->
  NoDup nodeIp ->
  NoDup (map fst (NodesInstances results)) ->
  exists plan w',
    computeFunctionsAllocation results functions nodeIp w
    = (Ret (inl plan), w')
    /\ planned results nodeIp 0 functions ∅ w plan w'
    /\ forall (j : nat) (name : string) (key : Z) (instances : list iface)
              (v : iface) (ip : string),
         functions !! j = Some name ->
         (key, instances) ∈ NodesInstances results ->
         instances !! j = Some v ->
         nth_ip nodeIp key = Some ip ->
         exists fa,
           plan !! name = Some fa
           /\ match as_float64 v with
              | Some f => Instances fa !! ip = Some (to_int f)
              | None =>
                  Instances fa !! ip = None
                  /\ EvLog (LogExpectedFloat64 v j key) ∈ w_trace w'
              end.
Proof.
  intros Hfits Hreg Hfault Hndf Hndip Hndk.
  pose proof (response_fits_safe _ _ _ Hfits) as Hsafe.
  destruct (planned_exists results nodeIp functions 0 ∅ w Hsafe Hreg Hfault)
    as (plan & w' & Hrun).
  exists plan, w'. split; [now apply planned_complete|]. split; [exact Hrun|].
  intros j name key instances v ip Hj Hin Hv Hip.
  destruct (planned_plan_lookup _ _ _ _ _ _ _ _ Hrun Hndf j name Hj)
    as (capacity & _ & Hplan).
  eexists. split; [exact Hplan|]. cbn [Instances Nat.add].
  rewrite (instances_of_lookup j nodeIp (NodesInstances results) key
             instances ip Hndk); auto.
  - rewrite Hv. destruct v as [| b | f | s | |]; cbn [as_float64];
      try (split; [apply lookup_empty|];
           apply (planned_logs _ _ _ _ _ _ _ _ Hrun j);
           [now apply lookup_lt_Some in Hj|];
           apply instances_log_contains with (instances := instances); auto;
           pose proof (Hsafe j ltac:(now apply lookup_lt_Some in Hj)) as Hs;
           now apply step_safeb_true in Hs as [Hs _]).
    reflexivity.
  - intros key' instances' _ Hip'. now apply (nth_ip_inj nodeIp key key' ip).
Qed.

(** ** A whole cycle *)

Lemma prepareFunctionInfo_columns (functions : list string) (w : World) :
  prepareFunctionInfo functions w
  = (Ret (fcolumns (map (lookup_row w) functions) 0),
     logged w (lookup_failures w functions)).
Proof.
  unfold prepareFunctionInfo.
  pose proof (prepareFunctionInfo_range_columns functions [] 0 w) as E.
  rewrite Nat.add_0_r in E. exact E.
Qed.

Lemma no_fault_split (n m : nat) (w w' : World) :
  no_fault (n + m) w -> w_faults w' = drop n (w_faults w) ->
  no_fault n w /\ no_fault m w'.
Proof.
  unfold no_fault. intros Hall Hdrop. rewrite Hdrop.
  rewrite !Forall_forall in *. split.
  - intros b Hb. apply Hall.
    apply list_elem_of_lookup in Hb as [k Hk].
    apply lookup_take_Some in Hk as [Hk Hlt].
    apply list_elem_of_lookup. exists k. apply lookup_take_Some. split; [auto|lia].
  - intros b Hb. apply Hall.
    apply list_elem_of_lookup in Hb as [k Hk].
    apply lookup_take_Some in Hk as [Hk Hlt].
    rewrite lookup_drop in Hk.
    apply list_elem_of_lookup. exists (n + k)%nat.
    apply lookup_take_Some. split; [auto|lia].
Qed.

Section WholeCycle.
Context `{Foreign}.

Lemma log_nodes_instances_spec (nodesInstances : list (Z * list iface)) :
  forall w : World,
    log_nodes_instances nodesInstances w
    = (Ret tt,
       logged w (map (fun e => EvLog (LogNodeInstances (fst e) (snd e)))
                   nodesInstances)).
Proof.
  induction nodesInstances as [|[nodeID instances] rest IH]; intros w.
  - simpl. unfold ret, logged. now rewrite app_nil_r, with_trace_same.
  - cbn [log_nodes_instances map fst snd]. unfold log, emit.
    erewrite bind_ret; [|reflexivity]. rewrite IH.
    unfold logged. cbn [with_trace w_trace].
    now rewrite with_trace_trace, <- app_assoc.
Qed.

Lemma saveAllocationToEtcd_succeeds (allocation : FunctionsAllocation)
    (payload : string) (w : World) :
  w_client w = true ->
  json_Marshal allocation = Some payload ->
  no_fault 2 w ->
  exists w1, saveAllocationToEtcd allocation w = (Ret None, w1).
Proof.
  intros Hclient Hpayload Hfault.
  assert (hd false (w_faults w) = false /\ hd false (tl (w_faults w)) = false)
    as [Hf1 Hf2].
  { unfold no_fault in Hfault.
    destruct (w_faults w) as [|b1 [|b2 fl]]; simpl in *; auto.
    - inversion Hfault; subst. auto.
    - inversion Hfault as [|? ? ? Hrest]; subst.
      inversion Hrest; subst. auto. }
  unfold saveAllocationToEtcd, GetEtcdClient.
  erewrite bind_ret; [|reflexivity]. rewrite Hclient, Hpayload.
  unfold bind at 1. rewrite Grant_spec, Hf1.
  unfold bind at 1. rewrite Put_spec.
  cbn [logged granted answered with_etcd with_trace with_faults w_faults
       w_etcd w_trace].
  rewrite Hf2. unfold alive. cbn [leases now]. rewrite lookup_insert_eq.
  replace (now (w_etcd w) <? now (w_etcd w) + 60) with true
    by (symmetry; apply Z.ltb_lt; lia).
  eexists. reflexivity.
Qed.

Lemma solve_reaches_solver (w : World) (functions : list string) :
  w_all_functions w = inl functions ->
  functions <> [] ->
  Forall url_sliceable (w_servers w) ->
  solve w
  = process_results (startSolver (snapshot_request w functions)) functions
      (snapshot_ips w) (logged w (snapshot_trace w functions)).
Proof.
  intros Hall Hne Hurl. unfold solve, log, emit.
  erewrite bind_ret; [|reflexivity].
  unfold GetServersMap. erewrite bind_ret; [|reflexivity].
  unfold GetAll. erewrite bind_ret; [|reflexivity].
  cbn [with_trace w_all_functions w_servers]. rewrite Hall.
  replace ((len (w_servers w) + 1 =? 0) || (len functions =? 0)) with false.
  2:{ symmetry. apply orb_false_iff. split; apply Z.eqb_neq; unfold len.
      - lia.
      - destruct functions; [congruence|simpl; lia]. }
  erewrite bind_ret; [|apply prepareNodeInfo_columns; exact Hurl].
  change (snapshot_rows (w_servers w)
            (with_trace w (w_trace w ++ [EvLog LogRunningSolver])))
    with (snapshot_rows (w_servers w) w).
  destruct (columns (snapshot_rows (w_servers w) w) 0) as [nodeInfo nodeIp] eqn:Hcols.
  erewrite bind_ret; [|apply prepareFunctionInfo_columns].
  erewrite bind_ret; [|reflexivity].
  erewrite bind_ret; [|reflexivity].
  rewrite lookup_failures_with_trace.
  change (lookup_row (with_trace w (w_trace w ++ [EvLog LogRunningSolver])))
    with (lookup_row w).
  unfold snapshot_trace, snapshot_ips, snapshot_request. rewrite Hcols.
  cbn [fst snd]. f_equal.
  unfold logged. cbn [with_trace w_trace]. f_equal.
  rewrite <- !app_assoc. reflexivity.
Qed.

(** C5. A number of [NodesInstances] becomes the instance count of its
    node's IP ([3.0] gives [3]); an entry that is not a number is logged
    and leaves the plan without a count for that node and function; either
    way the cycle goes on, and the plan is published under the key
    [allocation]. *)
Theorem nonnumeric_entries_skipped (w : World) (functions : list string)
    (results : SolverResults) (payload : string) :
  w_all_functions w = inl functions ->
  functions <> [] ->
  Forall url_sliceable (w_servers w) ->
  json_Unmarshal_results (startSolver (snapshot_request w functions))
  = Some results ->
  response_fits results functions (snapshot_ips w) ->
  all_registered w functions ->
  no_fault (length functions + 2) w ->
  w_client w = true ->
  NoDup functions ->
  NoDup (snapshot_ips w) ->
  NoDup (map fst (NodesInstances results)) ->
  json_Marshal (plan_of results functions 0 (snapshot_ips w) ∅) = Some payload ->
  exists plan w',
    solve w = (Ret tt, w')
    /\ json_Marshal plan = Some payload
    /\ kv (w_etcd w') !! "allocation"%string
       = Some (payload, next_lease (w_etcd w))
    /\ EvPut "allocation" payload (next_lease (w_etcd w)) true ∈ w_trace w'
    /\ forall (j : nat) (name : string) (key : Z) (instances : list iface)
              (v : iface) (ip : string),
         functions !! j = Some name ->
         (key, instances) ∈ NodesInstances results ->
         instances !! j = Some v ->
         nth_ip (snapshot_ips w) key = Some ip ->
         exists fa,
           plan !! name = Some fa
           /\ match as_float64 v with
              | Some f => Instances fa !! ip = Some (to_int f)
              | None =>
                  Instances fa !! ip = None
                  /\ EvLog (LogExpectedFloat64 v j key) ∈ w_trace w'
              end.
Proof.
  intros Hall Hne Hurl Hsolver Hfits Hreg Hfault Hclient Hndf Hndip Hndk Hpayload.
  rewrite (solve_reaches_solver w functions Hall Hne Hurl).
  unfold process_results. rewrite Hsolver. unfold log, emit.
  do 5 (erewrite bind_ret; [|reflexivity]).
  erewrite bind_ret; [|apply log_nodes_instances_spec].
  erewrite bind_ret; [|reflexivity].
  match goal with
  | |- context [bind (computeFunctionsAllocation _ _ _) _ ?w0] =>
      set (w9 := w0)
  end.
  assert (w_functions w9 = w_functions w) as Hfun9 by reflexivity.
  assert (w_faults w9 = w_faults w) as Hfl9 by reflexivity.
  assert (w_client w9 = w_client w) as Hcl9 by reflexivity.
  assert (w_etcd w9 = w_etcd w) as Hetcd9 by reflexivity.
  clearbody w9.
  destruct (planning_coerces results functions (snapshot_ips w) w9)
    as (plan & wp & Hrun & Hplanned & Hfacts); auto.
  { unfold all_registered. now rewrite Hfun9. }
  { destruct (no_fault_split (length functions) 2 w
                (with_faults w (drop (length functions) (w_faults w)))
                Hfault eq_refl) as [Hfirst _].
    unfold no_fault in *. now rewrite Hfl9. }
  erewrite bind_ret; [|exact Hrun].
  destruct (planned_frame _ _ _ _ _ _ _ _ Hplanned)
    as (_ & Hetcdp & Hclp & Hflp & [tp Htp] & _).
  pose proof (planned_plan_of _ _ _ _ _ _ _ _ Hplanned) as Hplan.
  destruct (saveAllocationToEtcd_succeeds plan payload wp) as [ws Hsave].
  { now rewrite Hclp, Hcl9. }
  { now rewrite Hplan. }
  { rewrite Hfl9 in Hflp.
    now apply (no_fault_split (length functions) 2 w wp Hfault). }
  erewrite bind_ret; [|exact Hsave].
  destruct (saveAllocationToEtcd_published _ _ _ Hsave)
    as (payload' & Hpayload' & Hkv & _ & _ & _ & _ & Htrace).
  assert (payload' = payload) as -> by (rewrite Hplan in Hpayload'; congruence).
  rewrite Hetcdp, Hetcd9 in Hkv, Htrace.
  exists plan, (with_trace ws (w_trace ws ++ [EvLog LogSolverTerminated])).
  split; [reflexivity|]. split; [now rewrite Hplan|].
  split; [exact Hkv|]. cbn [with_trace w_trace]. split.
  - rewrite Htrace. apply elem_of_app. left. apply elem_of_app. right.
    right. left.
  - intros j name key instances v ip Hj Hin Hv Hip.
    destruct (Hfacts j name key instances v ip Hj Hin Hv Hip) as (fa & Hfa & Hcount).
    exists fa. split; [exact Hfa|].
    destruct (as_float64 v); [exact Hcount|].
    destruct Hcount as [Hnone Hlog]. split; [exact Hnone|].
    rewrite Htrace. apply elem_of_app. left. apply elem_of_app. now left.
Qed.

End WholeCycle.

(** ** The small cluster runs a cycle *)

Lemma demo_urls_sliceable : Forall url_sliceable (w_servers Demo.world).
Proof.
  repeat constructor; unfold url_sliceable, strlen; simpl; lia.
Qed.

Lemma demo_snapshot_ips_NoDup : NoDup (snapshot_ips Demo.world).
Proof. apply (bool_decide_unpack _). vm_compute. exact I. Qed.

Lemma demo_keys_NoDup : NoDup (map fst (NodesInstances Demo.results)).
Proof. apply (bool_decide_unpack _). vm_compute. exact I. Qed.

Lemma demo_all_registered : all_registered Demo.world Demo.functions.
Proof. repeat constructor; vm_compute; eauto. Qed.

Lemma nonnumeric_entries_skipped_witness :
  exists plan w',
    @solve Demo.foreign Demo.world = (Ret tt, w')
    /\ @json_Marshal Demo.foreign plan = Some Demo.payload
    /\ kv (w_etcd w') !! "allocation"%string
       = Some (Demo.payload, next_lease (w_etcd Demo.world))
    /\ EvPut "allocation" Demo.payload (next_lease (w_etcd Demo.world)) true
       ∈ w_trace w'
    /\ forall (j : nat) (name : string) (key : Z) (instances : list iface)
              (v : iface) (ip : string),
         Demo.functions !! j = Some name ->
         (key, instances) ∈ NodesInstances Demo.results ->
         instances !! j = Some v ->
         nth_ip (snapshot_ips Demo.world) key = Some ip ->
         exists fa,
           plan !! name = Some fa
           /\ match as_float64 v with
              | Some f => Instances fa !! ip = Some (to_int f)
              | None =>
                  Instances fa !! ip = None
                  /\ EvLog (LogExpectedFloat64 v j key) ∈ w_trace w'
              end.
Proof.
  apply (@nonnumeric_entries_skipped Demo.foreign Demo.world Demo.functions
           Demo.results Demo.payload).
  - reflexivity.
  - discriminate.
  - exact demo_urls_sliceable.
  - reflexivity.
  - exact demo_response_fits.
  - exact demo_all_registered.
  - constructor.
  - reflexivity.
  - exact demo_functions_NoDup.
  - exact demo_snapshot_ips_NoDup.
  - exact demo_keys_NoDup.
  - vm_compute. reflexivity.
Defined.



Lemma prepareNodeInfo_index_aligned_witness :
  exists nodeInfo nodeIp,
    prepareNodeInfo Demo.servers Demo.world = (Ret (nodeInfo, nodeIp), Demo.world)
    /\ (length (TotalMemoryMB nodeInfo) = S (length Demo.servers)
        /\ length (ComputationalCapacity nodeInfo) = S (length Demo.servers)
        /\ length (MaximumCapacity nodeInfo) = S (length Demo.servers)
        /\ length (IPC nodeInfo) = S (length Demo.servers)
        /\ length (PowerConsumption nodeInfo) = S (length Demo.servers)
        /\ length nodeIp = S (length Demo.servers))
    /\ row_at nodeInfo nodeIp (length Demo.servers)
       = Some (local_row (w_resources Demo.world) (w_ip Demo.world))
    /\ forall (i : nat) (key : string) (server : StatusInformation),
         Demo.servers !! i = Some (key, server) ->
         row_at nodeInfo nodeIp i = Some (server_row server).
Proof.
  apply (prepareNodeInfo_index_aligned Demo.servers Demo.world).
  exact demo_urls_sliceable.
Defined.

(** * Further properties of solver.go *)

(** ** Peer URLs *)

Lemma prepareNodeInfo_range_short_url
    (servers : list (string * StatusInformation)) :
  forall (rows : list node_row) (k : nat) (w : World),
    Exists (fun e => strlen (Url (snd e)) < 12) servers ->
    prepareNodeInfo_range servers (length rows)
      (fst (columns rows (length servers + S k)))
      (snd (columns rows (length servers + S k))) w
    = (Panic, w).
Proof.
  induction servers as [|[key server] rest IH]; intros rows k w Hshort.
  - inversion Hshort.
  - cbn [prepareNodeInfo_range columns fst snd length Nat.add].
    unfold make_ints, make_strings.
    do 5 (erewrite bind_ret; [|apply assign_at_end; now rewrite length_map]).
    destruct (Z_lt_le_dec (strlen (Url server)) 12) as [Hlt|Hge].
    + erewrite bind_panic; [reflexivity|now apply slice_short].
    + erewrite bind_ret; [|now apply slice_peer_ip].
      erewrite bind_ret; [|apply assign_at_end; now rewrite length_map].
      apply Exists_cons in Hshort as [Hhead|Hrest];
        [cbn [snd] in Hhead; lia|].
      specialize (IH (rows ++ [server_row server]) k w Hrest).
      rewrite length_app in IH. cbn [length] in IH.
      replace (S (length rows)) with (length rows + 1)%nat by lia.
      unfold columns, make_ints, make_strings in IH. cbn [fst snd] in IH.
      rewrite !map_app in IH. cbn [map] in IH. exact IH.
Qed.

(** X1. A peer whose advertised URL has fewer than 12 bytes makes the
    snapshot builder panic: the slice [Url[7:len-5]] is out of range. *)
Theorem prepareNodeInfo_short_url_panics
    (serversMap : list (string * StatusInformation)) (w : World) :
  Exists (fun e => strlen (Url (snd e)) < 12) serversMap ->
  prepareNodeInfo serversMap w = (Panic, w).
Proof.
  intros Hshort. unfold prepareNodeInfo.
  pose proof (prepareNodeInfo_range_short_url serversMap [] 0 w Hshort) as E.
  cbn [columns fst snd map app length Nat.add] in E.
  replace (S (length serversMap)) with (length serversMap + 1)%nat by lia.
  erewrite bind_panic; [reflexivity|exact E].
Qed.

(** X2. For a peer that advertises [http://host:port] with a port of four
    characters, the snapshot lists [host] at the peer's position. *)
Theorem prepareNodeInfo_default_port_ip
    (serversMap : list (string * StatusInformation)) (w : World)
    (i : nat) (key : string) (server : StatusInformation)
    (host port : string) :
  Forall url_sliceable serversMap ->
  serversMap !! i = Some (key, server) ->
  Url server
  = String.append "http://" (String.append host (String.append ":" port)) ->
  String.length port = 4%nat ->
  exists nodeInfo nodeIp,
    prepareNodeInfo serversMap w = (Ret (nodeInfo, nodeIp), w)
    /\ nodeIp !! i = Some host.
Proof.
  intros Hurl Hi Hform Hport.
  exists (fst (columns (snapshot_rows serversMap w) 0)),
         (snd (columns (snapshot_rows serversMap w) 0)).
  split.
  - rewrite <- surjective_pairing. now apply prepareNodeInfo_columns.
  - unfold columns, snapshot_rows, make_strings. cbn [snd replicate].
    rewrite app_nil_r, map_app, lookup_app_l.
    + rewrite !list_lookup_fmap, Hi. cbn [fmap option_fmap option_map snd
        server_row row_ip]. rewrite Hform.
      now rewrite peer_ip_four_character_port.
    + rewrite !length_map. now apply lookup_lt_Some in Hi.
Qed.

(** ** The request to the solver *)

Lemma C_int_fixed (z : Z) : C_int z = z <-> - 2 ^ 31 <= z < 2 ^ 31.
Proof.
  unfold C_int. split.
  - intros E.
    pose proof (Z.mod_pos_bound (z + 2 ^ 31) (2 ^ 32) ltac:(lia)). lia.
  - intros Hz. rewrite Z.mod_small by lia. lia.
Qed.

(** X3. The C array that [allocateAndInitialize] fills has the length of
    the slice, and holds the same numbers exactly when every element fits
    a 32-bit C int; an element outside that range is sent changed. *)
Theorem allocateAndInitialize_faithful_iff (data : list Z) :
  length (allocateAndInitialize data) = length data
  /\ (allocateAndInitialize data = data
      <-> Forall (fun z => - 2 ^ 31 <= z < 2 ^ 31) data).
Proof.
  unfold allocateAndInitialize. split; [apply length_map|].
  induction data as [|z rest IH]; cbn [map].
  - split; [constructor|reflexivity].
  - split.
    + intros E. injection E as Ez Erest. constructor.
      * now apply C_int_fixed.
      * now apply IH.
    + intros Hall. inversion Hall as [|? ? Hz Hrest]; subst.
      f_equal; [now apply C_int_fixed|now apply IH].
Qed.

Section Request.
Context `{Foreign}.

(** X4. When a cycle reaches the solver, the request it sends is consistent:
    each of the five node arrays has one entry per peer plus one, each of
    the four function arrays has one entry per function name, and the two
    counts are those lengths as long as they fit a C int. *)
Theorem solve_request_counts (w : World) (functions : list string) :
  w_all_functions w = inl functions ->
  functions <> [] ->
  Forall url_sliceable (w_servers w) ->
  exists req,
    solve w
    = process_results (startSolver req) functions (snapshot_ips w)
        (logged w (snapshot_trace w functions))
    /\ last (snapshot_trace w functions) = Some (EvStartSolver req)
    /\ (length (nodeMemory req) = S (length (w_servers w))
        /\ length (nodeCapacity req) = S (length (w_servers w))
        /\ length (maximumCapacity req) = S (length (w_servers w))
        /\ length (nodeIpc req) = S (length (w_servers w))
        /\ length (nodePowerConsumption req) = S (length (w_servers w)))
    /\ (length (functionMemory req) = length functions
        /\ length (functionWorkload req) = length functions
        /\ length (functionDeadline req) = length functions
        /\ length (functionInvocations req) = length functions)
    /\ (len (w_servers w) + 1 < 2 ^ 31 ->
        numberOfNodes req = len (w_servers w) + 1)
    /\ (len functions < 2 ^ 31 -> numberOfFunctions req = len functions).
Proof.
  intros Hall Hne Hurl. exists (snapshot_request w functions).
  split; [now apply solve_reaches_solver|]. split.
  { unfold snapshot_trace.
    replace (EvLog LogRunningSolver
             :: lookup_failures w functions
             ++ [EvInitializePython;
                 EvStartSolver (snapshot_request w functions)])
      with ((EvLog LogRunningSolver
             :: lookup_failures w functions ++ [EvInitializePython])
            ++ [EvStartSolver (snapshot_request w functions)])
      by (cbn [app]; now rewrite <- app_assoc).
    apply last_snoc. }
  unfold snapshot_request, solve_request, allocateAndInitialize, columns,
    fcolumns, snapshot_rows, make_ints.
  cbn [nodeMemory nodeCapacity maximumCapacity nodeIpc nodePowerConsumption
       functionMemory functionWorkload functionDeadline functionInvocations
       numberOfNodes numberOfFunctions fst TotalMemoryMB
       ComputationalCapacity MaximumCapacity IPC PowerConsumption
       fi_MemoryMB fi_Workload fi_Deadline fi_Invocations replicate].
  rewrite !app_nil_r.
  repeat split;
    try (rewrite !length_map, ?length_app, ?length_map; cbn [length]; lia).
  - intros Hfit. apply C_int_fixed. unfold len in *. lia.
  - intros Hfit. apply C_int_fixed. unfold len in *. lia.
Qed.

(** X5. A response of the solver that cannot be decoded ends the cycle
    with a fatal error right after the call: no function record is saved
    and nothing is written to the coordination store. *)
Theorem solve_fatal_on_malformed_response (w : World)
    (functions : list string) :
  w_all_functions w = inl functions ->
  functions <> [] ->
  Forall url_sliceable (w_servers w) ->
  json_Unmarshal_results (startSolver (snapshot_request w functions)) = None ->
  solve w
  = (Fatal,
     logged w (snapshot_trace w functions
               ++ [EvLog (LogFatal "Error unmarshalling results")]))
  /\ w_functions (snd (solve w)) = w_functions w
  /\ w_etcd (snd (solve w)) = w_etcd w.
Proof.
  intros Hall Hne Hurl Hbad.
  assert (solve w
          = (Fatal,
             logged w (snapshot_trace w functions
                       ++ [EvLog (LogFatal "Error unmarshalling results")])))
    as E.
  { rewrite (solve_reaches_solver w functions Hall Hne Hurl).
    unfold process_results. rewrite Hbad. unfold fatal, logged.
    cbn [with_trace w_trace]. now rewrite with_trace_trace, <- app_assoc. }
  split; [exact E|]. now rewrite E.
Qed.

End Request.

(** ** More on planning *)

Lemma planned_dom (results : SolverResults) (nodeIp : list string) (i : nat)
    (functions : list string) (allocation plan : FunctionsAllocation)
    (w w' : World) :
  planned results nodeIp i functions allocation w plan w' ->
  dom plan = list_to_set functions ∪ dom allocation.
Proof.
  induction 1 as [|i fn rest allocation plan w w' capacity f Hsafe Hcap Hf Hfault _ IH].
  - cbn [list_to_set]. now rewrite (left_id_L ∅ (∪)).
  - rewrite IH, dom_insert_L. cbn [list_to_set].
    rewrite (assoc_L (∪)). f_equal. apply (comm_L (∪)).
Qed.

(** X6. A plan that planning returns has an entry for exactly the function
    names it was given; when the names are distinct, the entry of
    [functions[i]] carries the capacity [FunctionsCapacity[i]]. *)
Theorem plan_covers_functions (results : SolverResults)
    (functions nodeIp : list string) (w w' : World)
    (plan : FunctionsAllocation) :
  computeFunctionsAllocation results functions nodeIp w
  = (Ret (inl plan), w') ->
  dom plan = list_to_set functions
  /\ (NoDup functions ->
      forall (i : nat) (name : string),
        functions !! i = Some name ->
        exists fa,
          plan !! name = Some fa
          /\ FunctionsCapacity results !! i = Some (Capacity fa)).
Proof.
  intros Hrun. apply planned_sound in Hrun. split.
  - rewrite (planned_dom _ _ _ _ _ _ _ _ Hrun), dom_empty_L.
    apply (right_id_L ∅ (∪)).
  - intros Hnd i name Hi.
    destruct (planned_plan_lookup _ _ _ _ _ _ _ _ Hrun Hnd i name Hi)
      as (capacity & Hcap & Hplan).
    eexists. split; [exact Hplan|]. exact Hcap.
Qed.

Lemma instances_log_planner_events (nodesInstances : list (Z * list iface))
    (i : nat) (nodeIp : list string) :
  forallb planner_event (instances_log nodesInstances i nodeIp) = true.
Proof.
  induction nodesInstances as [|[key instances] rest IH]; [reflexivity|].
  cbn [instances_log fst snd].
  destruct (instances !! i) as [v|]; [|reflexivity].
  destruct (as_float64 v); [|exact IH].
  destruct (nth_ip nodeIp key); [exact IH|reflexivity].
Qed.

Lemma range_leaves_store (results : SolverResults) (nodeIp : list string)
    (functions : list string) :
  forall (i : nat) (allocation : FunctionsAllocation) (w : World),
    fst (computeFunctionsAllocation_range results functions i nodeIp
           allocation w) <> Fatal
    /\ w_etcd (snd (computeFunctionsAllocation_range results functions i
                      nodeIp allocation w)) = w_etcd w
    /\ exists t,
         w_trace (snd (computeFunctionsAllocation_range results functions i
                         nodeIp allocation w)) = w_trace w ++ t
         /\ forallb planner_event t = true.
Proof.
  induction functions as [|fn rest IH]; intros i allocation w.
  - cbn. split; [discriminate|]. split; [reflexivity|].
    exists []. now rewrite app_nil_r.
  - rewrite computeFunctionsAllocation_range_cons. cbv zeta.
    pose proof (instances_log_planner_events (NodesInstances results) i nodeIp)
      as Hlog.
    assert (forall o : outcome (FunctionsAllocation + error),
              o <> Fatal ->
              fst (o, logged w (instances_log (NodesInstances results) i nodeIp))
              <> Fatal
              /\ w_etcd (snd (o, logged w (instances_log (NodesInstances results)
                                            i nodeIp))) = w_etcd w
              /\ exists t,
                   w_trace (snd (o, logged w (instances_log
                                              (NodesInstances results) i nodeIp)))
                   = w_trace w ++ t
                   /\ forallb planner_event t = true) as Hstop.
    { intros o Ho. split; [exact Ho|]. split; [reflexivity|]. eauto. }
    destruct (forallb (entry_okb i nodeIp) (NodesInstances results));
      [|now apply Hstop].
    destruct (FunctionsCapacity results !! i) as [capacity|];
      [|now apply Hstop].
    destruct (w_functions w !! fn) as [f|]; [|now apply Hstop].
    destruct (hd false (w_faults w)).
    + split; [discriminate|]. split; [reflexivity|].
      eexists. cbn [snd refused logged answered with_trace with_faults w_trace].
      rewrite <- app_assoc. split; [reflexivity|].
      rewrite forallb_app, Hlog. reflexivity.
    + destruct (IH (S i)
                  (<[fn := {| Capacity := capacity;
                              Instances := instances_of (NodesInstances results)
                                             i nodeIp ∅ |}]> allocation)
                  (persisted
                     (logged w (instances_log (NodesInstances results) i nodeIp))
                     (demanded w f capacity)))
        as (Hfatal & Hetcd & t & Ht & Hev).
      split; [exact Hfatal|]. split; [now rewrite Hetcd|].
      eexists. rewrite Ht.
      cbn [persisted logged answered with_trace with_functions with_faults
           w_trace].
      rewrite <- !app_assoc. split; [reflexivity|].
      rewrite !forallb_app, Hlog, Hev. reflexivity.
Qed.

(** X7. Whatever its outcome, planning is never fatal by itself, leaves the
    coordination store as it was, and causes nothing but log lines and saves
    of function records: it neither calls the solver nor publishes. *)
Theorem planning_leaves_store (results : SolverResults)
    (functions nodeIp : list string) (w : World) :
  fst (computeFunctionsAllocation results functions nodeIp w) <> Fatal
  /\ w_etcd (snd (computeFunctionsAllocation results functions nodeIp w))
     = w_etcd w
  /\ forallb planner_event
       (emitted (computeFunctionsAllocation results functions nodeIp) w)
     = true.
Proof.
  destruct (range_leaves_store results nodeIp functions 0 ∅ w)
    as (Hfatal & Hetcd & t & Ht & Hev).
  split; [exact Hfatal|]. split; [exact Hetcd|].
  unfold emitted, computeFunctionsAllocation. rewrite Ht.
  now rewrite drop_app_length.
Qed.

(** X8. When the name at index [j] has no metadata, after the records
    before it were saved, planning returns the error [Function not found]
    and no plan; no save is attempted for [j], the records before [j] hold
    their new CPU demand and the name stays without a record. *)
Theorem planning_stops_at_unregistered (results : SolverResults)
    (functions nodeIp : list string) (w : World) (j : nat) (name : string) :
  functions !! j = Some name ->
  w_functions w !! name = None ->
  all_registered w (take j functions) ->
  (forall k, (k <= j)%nat -> step_safeb results nodeIp k = true) ->
  no_fault j w ->
  NoDup functions ->
  registry_wf w ->
  exists w',
    computeFunctionsAllocation results functions nodeIp w
    = (Ret (inr "Function not found"%string), w')
    /\ w_faults w' = drop j (w_faults w)
    /\ w_functions w' !! name = None
    /\ forall (i : nat) (fn : string),
         (i < j)%nat -> functions !! i = Some fn ->
         exists capacity f,
           FunctionsCapacity results !! i = Some capacity
           /\ w_functions w' !! fn = Some f
           /\ CPUDemand f
              = cpuDemand capacity (res_MaximumCapacity (w_resources w)).
Proof.
  intros Hname Hnone Hreg Hsafe Hfault Hnd Hwf.
  pose proof (lookup_lt_Some _ _ _ Hname) as Hj.
  pose proof (take_drop_middle functions j name Hname) as Hsplit.
  set (pre := take j functions) in *.
  set (post := drop (S j) functions) in *.
  assert (length pre = j) as Hpre by (subst pre; rewrite length_take; lia).
  rewrite <- Hsplit in Hnd.
  apply NoDup_app in Hnd as (Hndpre & Hdisj & Hndpost).
  destruct (planned_exists results nodeIp pre 0 ∅ w) as (plan1 & w1 & Hrun).
  { intros k Hk. apply Hsafe. simpl. lia. }
  { exact Hreg. }
  { now rewrite Hpre. }
  destruct (planned_frame _ _ _ _ _ _ _ _ Hrun)
    as (Hres & _ & _ & Hfl & _ & _ & Hout).
  assert (name ∉ pre) as Hfresh.
  { intros Hin. apply (Hdisj name Hin). left. }
  destruct (Hout name Hfresh) as [_ Hsame].
  pose proof (Hsafe j (Nat.le_refl j)) as Hsj.
  apply step_safeb_true in Hsj as [Hok [capacity Hcap]].
  unfold computeFunctionsAllocation. rewrite <- Hsplit.
  rewrite (range_app_planned _ _ _ _ _ _ _ _ _ Hrun).
  rewrite computeFunctionsAllocation_range_cons. cbv zeta.
  simpl (0 + length pre)%nat. rewrite Hpre, Hok, Hcap, (Hsame Hwf), Hnone.
  eexists. split; [reflexivity|].
  cbn [logged with_trace w_faults w_functions].
  split; [now rewrite Hfl, Hpre|]. split; [now rewrite (Hsame Hwf)|].
  intros i fn Hi Hfn.
  assert (pre !! i = Some fn) as Hprei
    by (rewrite lookup_app_l in Hfn by lia; exact Hfn).
  destruct (planned_store_lookup _ _ _ _ _ _ _ _ Hrun Hndpre Hwf i fn Hprei)
    as (c & g & Hc & _ & Hstore).
  exists c, (demanded w g c). auto.
Qed.

Lemma first_unregistered (w : World) (functions : list string) :
  ~ all_registered w functions ->
  exists j name,
    functions !! j = Some name
    /\ w_functions w !! name = None
    /\ all_registered w (take j functions).
Proof.
  unfold all_registered.
  induction functions as [|fn rest IH]; intros Hnot.
  - exfalso. apply Hnot. constructor.
  - destruct (w_functions w !! fn) as [f|] eqn:Hf.
    + destruct IH as (j & name & Hj & Hnone & Hpre).
      { intros Hrest. apply Hnot. constructor; [rewrite Hf; eauto|exact Hrest]. }
      exists (S j), name. cbn [take].
      split; [exact Hj|]. split; [exact Hnone|].
      constructor; [rewrite Hf; eauto|exact Hpre].
    + exists 0%nat, fn. cbn [take].
      split; [reflexivity|]. split; [exact Hf|]. constructor.
Qed.

Lemma range_unregistered (results : SolverResults) (nodeIp : list string)
    (functions : list string) :
  forall (i : nat) (allocation : FunctionsAllocation) (w : World),
    (forall j, (j < length functions)%nat ->
               step_safeb results nodeIp (i + j) = true) ->
    no_fault (length functions) w ->
    registry_wf w ->
    Exists (fun name => w_functions w !! name = None) functions ->
    exists w',
      computeFunctionsAllocation_range results functions i nodeIp allocation w
      = (Ret (inr "Function not found"%string), w').
Proof.
  induction functions as [|fn rest IH];
    intros i allocation w Hsafe Hfault Hwf Hmiss.
  - inversion Hmiss.
  - rewrite computeFunctionsAllocation_range_cons. cbv zeta.
    pose proof (Hsafe 0%nat ltac:(simpl; lia)) as H0.
    rewrite Nat.add_0_r in H0.
    apply step_safeb_true in H0 as [-> [capacity ->]].
    destruct (w_functions w !! fn) as [f|] eqn:Hf; [|eauto].
    assert (hd false (w_faults w) = false
            /\ Forall (fun b => b = false)
                 (take (length rest) (tl (w_faults w)))) as [-> Htl].
    { unfold no_fault in Hfault. simpl in Hfault.
      destruct (w_faults w) as [|b fl]; simpl in *.
      - split; [reflexivity|]. rewrite take_nil. constructor.
      - inversion Hfault; subst. split; [reflexivity|assumption]. }
    apply IH.
    + intros j Hj. replace (S i + j)%nat with (i + S j)%nat by lia.
      apply Hsafe. simpl. lia.
    + exact Htl.
    + eapply persisted_wf; eauto.
    + apply Exists_cons in Hmiss as [Hhead|Hrest]; [congruence|].
      eapply Exists_impl; [exact Hrest|]. intros name Hnone. cbn beta in *.
      cbn [persisted logged answered with_trace with_functions with_faults
           w_functions demanded set_CPUDemand Name].
      rewrite lookup_insert_ne; [exact Hnone|].
      rewrite (Hwf _ _ Hf). congruence.
Qed.

Section Unregistered.
Context `{Foreign}.

(** X9. A function name without metadata is passed over by the snapshot
    (logged, zeros sent to the solver) but ends the cycle at planning with a
    fatal error: the solver is called and nothing is published. *)
Theorem solve_fatal_on_unregistered_function (w : World)
    (functions : list string) (results : SolverResults) :
  w_all_functions w = inl functions ->
  Forall url_sliceable (w_servers w) ->
  json_Unmarshal_results (startSolver (snapshot_request w functions))
  = Some results ->
  response_fits results functions (snapshot_ips w) ->
  ~ all_registered w functions ->
  no_fault (length functions) w ->
  registry_wf w ->
  fst (solve w) = Fatal
  /\ w_etcd (snd (solve w)) = w_etcd w
  /\ EvStartSolver (snapshot_request w functions) ∈ w_trace (snd (solve w))
  /\ exists name,
       name ∈ functions
       /\ w_functions w !! name = None
       /\ EvLog (LogRetrievingFunction name) ∈ w_trace (snd (solve w)).
Proof.
  intros Hall Hurl Hsolver Hfits Hnot Hfault Hwf.
  assert (functions <> []) as Hne.
  { intros ->. apply Hnot. constructor. }
  destruct (first_unregistered w functions Hnot) as (j & name & Hj & Hnone & Hpre).
  pose proof (lookup_lt_Some _ _ _ Hj) as Hjlt.
  rewrite (solve_reaches_solver w functions Hall Hne Hurl).
  unfold process_results. rewrite Hsolver. unfold log, emit.
  do 5 (erewrite bind_ret; [|reflexivity]).
  erewrite bind_ret; [|apply log_nodes_instances_spec].
  erewrite bind_ret; [|reflexivity].
  match goal with
  | |- context [bind (computeFunctionsAllocation _ _ _) _ ?w0] =>
      set (w9 := w0)
  end.
  assert (w_functions w9 = w_functions w) as Hfun9 by reflexivity.
  assert (w_faults w9 = w_faults w) as Hfl9 by reflexivity.
  assert (w_etcd w9 = w_etcd w) as Hetcd9 by reflexivity.
  assert (exists t, w_trace w9 = w_trace w ++ snapshot_trace w functions ++ t)
    as [t9 Ht9].
  { subst w9. unfold logged. cbn [with_trace w_trace].
    rewrite <- !app_assoc. eauto. }
  clearbody w9.
  destruct (range_unregistered results (snapshot_ips w) functions 0 ∅ w9)
    as (wp & Hrun).
  { intros k Hk. now apply (response_fits_safe _ _ _ Hfits). }
  { unfold no_fault in *. now rewrite Hfl9. }
  { intros n f. rewrite Hfun9. apply Hwf. }
  { apply Exists_exists. exists name. rewrite Hfun9.
    split; [|exact Hnone].
    apply list_elem_of_lookup. eauto. }
  fold (computeFunctionsAllocation results functions (snapshot_ips w) w9)
    in Hrun.
  erewrite bind_ret; [|exact Hrun].
  destruct (range_leaves_store results (snapshot_ips w) functions 0 ∅ w9)
    as (_ & Hetcdp & tp & Htp & _).
  fold (computeFunctionsAllocation results functions (snapshot_ips w) w9)
    in Hetcdp, Htp.
  rewrite Hrun in Hetcdp, Htp. cbn [snd] in Hetcdp, Htp.
  unfold fatal. cbn [fst snd with_trace w_etcd w_trace].
  split; [reflexivity|]. split; [now rewrite Hetcdp|].
  rewrite Htp, Ht9. split.
  - apply elem_of_app. left. apply elem_of_app. left.
    apply elem_of_app. right. apply elem_of_app. left.
    unfold snapshot_trace. right. apply elem_of_app. right. right. left.
  - exists name. split; [apply list_elem_of_lookup; eauto|].
    split; [exact Hnone|].
    apply elem_of_app. left. apply elem_of_app. left.
    apply elem_of_app. right. apply elem_of_app. left.
    unfold snapshot_trace. right. apply elem_of_app. left.
    apply lookup_failures_logged; [apply list_elem_of_lookup; eauto|exact Hnone].
Qed.

End Unregistered.

(** ** More on the plan store *)

Section StoreMore.
Context `{Foreign}.

Lemma saveAllocationToEtcd_failure (allocation : FunctionsAllocation)
    (w w' : World) (o : outcome (option error)) :
  saveAllocationToEtcd allocation w = (o, w') ->
  o <> Ret None ->
  kv (w_etcd w') = kv (w_etcd w)
  /\ (o = Fatal
      \/ (json_Marshal allocation = None
          /\ o = Ret (Some "Could not marshal allocation"%string)
          /\ w' = w)).
Proof.
  unfold saveAllocationToEtcd, GetEtcdClient.
  erewrite bind_ret; [|reflexivity].
  destruct (w_client w).
  2:{ intros E _. injection E as <- <-. split; [reflexivity|now left]. }
  destruct (json_Marshal allocation) as [payload|].
  2:{ intros E _. injection E as <- <-. split; [reflexivity|now right]. }
  unfold bind at 1. rewrite Grant_spec.
  destruct (hd false (w_faults w)).
  { intros E _. injection E as <- <-. split; [reflexivity|now left]. }
  unfold bind at 1. rewrite Put_spec.
  cbn [logged granted answered with_etcd with_trace with_faults w_faults
       w_etcd w_trace].
  destruct (hd false (tl (w_faults w))).
  { intros E _. injection E as <- <-. split; [reflexivity|now left]. }
  destruct (alive _ _).
  - intros E Hnot. injection E as <- <-. now contradiction Hnot.
  - intros E _. injection E as <- <-. split; [reflexivity|now left].
Qed.

(** X10. A publish that does not succeed leaves the value under every key
    as it was: it is either fatal (no client, lease not granted, put
    refused) or, when the plan cannot be encoded, returns an error before
    any request is made. *)
Theorem failed_publish_keeps_value (allocation : FunctionsAllocation)
    (w : World) :
  fst (saveAllocationToEtcd allocation w) <> Ret None ->
  kv (w_etcd (snd (saveAllocationToEtcd allocation w))) = kv (w_etcd w)
  /\ (fst (saveAllocationToEtcd allocation w) = Fatal
      \/ (json_Marshal allocation = None
          /\ saveAllocationToEtcd allocation w
             = (Ret (Some "Could not marshal allocation"%string), w))).
Proof.
  intros Hnot.
  destruct (saveAllocationToEtcd allocation w) as [o w'] eqn:E.
  cbn [fst snd] in *.
  destruct (saveAllocationToEtcd_failure allocation w w' o E Hnot)
    as [Hkv [Hfatal|(Hnone & -> & ->)]].
  - split; [exact Hkv|now left].
  - split; [exact Hkv|right; auto].
Qed.

(** X11. After a publish, a fetch [d] time units later on any node finds
    nothing once the 60 units of the lease are over; before that it
    returns what the codec reads from the published text, which is an
    error when the text cannot be decoded. *)
Theorem fetch_after_publish (allocation : FunctionsAllocation)
    (w w1 reader : World) (d : Z) :
  saveAllocationToEtcd allocation w = (Ret None, w1) ->
  0 <= d ->
  w_etcd reader = w_etcd (elapse d w1) ->
  w_client reader = true ->
  hd false (w_faults reader) = false ->
  exists payload,
    json_Marshal allocation = Some payload
    /\ fst (getAllocationFromEtcd reader)
       = if d <? 60
         then match json_Unmarshal payload with
              | Some fetched => Ret (inl fetched)
              | None => Ret (inr "Failed to unmarshal allocation"%string)
              end
         else Ret (inr "No data found for key 'allocation'"%string).
Proof.
  intros Hsave Hd Hview Hclient Hfault.
  destruct (saveAllocationToEtcd_published _ _ _ Hsave)
    as (payload & Hpayload & Hkv & Hlease & Hnow & _).
  exists payload. split; [exact Hpayload|].
  rewrite (getAllocationFromEtcd_fetches reader payload
             (next_lease (w_etcd w)) (now (w_etcd w) + 60));
    try assumption.
  - rewrite Hview. cbn [elapse with_etcd w_etcd now]. rewrite Hnow.
    destruct (d <? 60) eqn:Hlt.
    + apply Z.ltb_lt in Hlt.
      now replace (now (w_etcd w) + d <? now (w_etcd w) + 60) with true
        by (symmetry; apply Z.ltb_lt; lia).
    + apply Z.ltb_ge in Hlt.
      now replace (now (w_etcd w) + d <? now (w_etcd w) + 60) with false
        by (symmetry; apply Z.ltb_ge; lia).
  - rewrite Hview. exact Hkv.
  - rewrite Hview. exact Hlease.
Qed.

Lemma getAllocationFromEtcd_spec (w : World) :
  w_client w = true ->
  exists r t,
    getAllocationFromEtcd w = (Ret r, logged (answered w) t)
    /\ forallb watcher_event t = true
    /\ (hd false (w_faults w) = true ->
        r = inr "Failed to get allocation from etcd"%string)
    /\ (kv (w_etcd w) !! "allocation"%string = None ->
        exists e, r = inr e).
Proof.
  intros Hclient. unfold getAllocationFromEtcd, GetEtcdClient.
  erewrite bind_ret; [|reflexivity]. rewrite Hclient.
  unfold bind at 1. rewrite Get_spec.
  destruct (hd false (w_faults w)).
  - eexists _, _. split; [reflexivity|]. split; [reflexivity|].
    split; [reflexivity|eauto].
  - destruct (kv (w_etcd w) !! "allocation"%string) as [[value lease]|].
    + destruct (alive (w_etcd w) lease).
      * destruct (json_Unmarshal value);
          (eexists _, _; split; [reflexivity|]; split; [reflexivity|];
           split; intros; discriminate).
      * eexists _, _. split; [reflexivity|]. split; [reflexivity|].
        split; intros; discriminate.
    + eexists _, _. split; [reflexivity|]. split; [reflexivity|].
      split; [intros; discriminate|eauto].
Qed.

(** X12. On a node that has a client, a fetch always returns (it is never
    fatal), leaves the coordination store and the registry as they were,
    and answers with an error when the request fails or the key has no
    value. *)
Theorem fetch_is_read_only (w : World) :
  w_client w = true ->
  exists r,
    fst (getAllocationFromEtcd w) = Ret r
    /\ w_etcd (snd (getAllocationFromEtcd w)) = w_etcd w
    /\ w_functions (snd (getAllocationFromEtcd w)) = w_functions w
    /\ (hd false (w_faults w) = true ->
        r = inr "Failed to get allocation from etcd"%string)
    /\ (kv (w_etcd w) !! "allocation"%string = None -> exists e, r = inr e).
Proof.
  intros Hclient.
  destruct (getAllocationFromEtcd_spec w Hclient) as (r & t & E & _ & Hf & Hk).
  exists r. rewrite E. repeat split; auto.
Qed.

End StoreMore.

(** ** The watcher *)

Section WatcherFacts.
Context `{Foreign}.

Lemma getAllocationFromEtcd_fetched (w : World) :
  w_client w = true ->
  getAllocationFromEtcd w
  = (Ret (fetched w),
     logged (answered w)
       [EvGet "allocation" (negb (hd false (w_faults w)))]).
Proof.
  intros Hclient. unfold getAllocationFromEtcd, GetEtcdClient, fetched.
  erewrite bind_ret; [|reflexivity]. rewrite Hclient.
  unfold bind at 1. rewrite Get_spec.
  destruct (hd false (w_faults w)); [reflexivity|].
  destruct (kv (w_etcd w) !! "allocation"%string) as [[value lease]|];
    [|reflexivity].
  destruct (alive (w_etcd w) lease); [|reflexivity].
  destruct (json_Unmarshal value); reflexivity.
Qed.

Lemma watch_event_spec (event : WatchEvent) (p : Process) :
  w_client (p_world p) = true ->
  watch_event event p = (Ret tt, after_event event p).
Proof.
  intros Hclient. unfold watch_event, pbind, wlog, lift.
  cbn [p_world Allocation p_log].
  rewrite (getAllocationFromEtcd_fetched _ Hclient).
  unfold after_event.
  destruct (fetched (p_world p)) as [allocation|err];
    unfold setAllocation, GetAllocation, wlog; cbn [p_world Allocation p_log];
    now rewrite <- app_assoc.
Qed.

Lemma watch_events_watched (events : list WatchEvent) :
  forall p : Process,
    w_client (p_world p) = true ->
    exists p', watch_events events p = (Ret tt, p') /\ watched [] p p'.
Proof.
  induction events as [|event rest IH]; intros p Hclient.
  - exists p. split; [reflexivity|]. unfold watched, store_after. cbn [foldl].
    repeat split; auto. exists []. now rewrite app_nil_r.
  - cbn [watch_events]. unfold pbind at 1.
    rewrite (watch_event_spec event p Hclient).
    destruct (IH (after_event event p)) as (p' & Hrun & Hc & He & Hf & Hfl & t & Ht & Hev);
      [exact Hclient|].
    exists p'. split; [exact Hrun|]. unfold watched, store_after in *.
    cbn [foldl after_event p_world logged answered with_trace with_faults
         w_etcd w_functions w_faults w_trace] in *.
    repeat split; auto.
    + intros Hnil. apply Hfl. now rewrite Hnil.
    + eexists. rewrite Ht, <- app_assoc. split; [reflexivity|].
      cbn [app forallb watcher_event]. exact Hev.
Qed.

Lemma watch_responses_watched (responses : list WatchResponse) :
  forall p : Process,
    w_client (p_world p) = true ->
    exists p', watch_responses responses p = (Ret tt, p')
               /\ watched responses p p'.
Proof.
  induction responses as [|r rest IH]; intros p Hclient.
  - exists p. split; [reflexivity|]. unfold watched, store_after. cbn [foldl].
    repeat split; auto. exists []. now rewrite app_nil_r.
  - cbn [watch_responses]. unfold pbind at 1, receive.
    match goal with
    | |- context [pbind (watch_events _) _ ?q] => set (p1 := q)
    end.
    destruct (watch_events_watched (Events r) p1)
      as (p2 & Hrun2 & Hc2 & He2 & Hf2 & Hfl2 & t2 & Ht2 & Hev2);
      [exact Hclient|].
    unfold pbind at 1. rewrite Hrun2.
    destruct (IH p2 Hc2) as (p' & Hrun & Hc & He & Hf & Hfl & t & Ht & Hev).
    exists p'. split; [exact Hrun|]. unfold watched, store_after in *.
    cbn [foldl] in *. subst p1.
    cbn [p_world with_etcd w_etcd w_functions w_faults w_trace] in *.
    repeat split; auto.
    + now rewrite He, He2.
    + now rewrite Hf, Hf2.
    + eexists. rewrite Ht, Ht2, <- app_assoc. split; [reflexivity|].
      now rewrite forallb_app, Hev2, Hev.
Qed.

(** X13. A watcher that has a client outlives every failed fetch: it
    handles all the messages of the channel and returns. It never writes
    the coordination store, which moves only by what the cluster does,
    saves no function record, and causes nothing but reads and log lines:
    no call to the solver, no lease, no put. *)
Theorem watcher_survives_and_only_reads (watchChan : list WatchResponse)
    (p : Process) :
  w_client (p_world p) = true ->
  exists p',
    watchAllocation watchChan p = (Ret tt, p')
    /\ w_etcd (p_world p') = store_after watchChan (w_etcd (p_world p))
    /\ w_functions (p_world p') = w_functions (p_world p)
    /\ exists t, w_trace (p_world p') = w_trace (p_world p) ++ t
                 /\ forallb watcher_event t = true.
Proof.
  intros Hclient. unfold watchAllocation, pbind, wlog, lift, GetEtcdClient.
  cbn [p_world Allocation p_log]. rewrite Hclient.
  match goal with
  | |- context [watch_responses _ ?q] => set (p0 := q)
  end.
  destruct (watch_responses_watched watchChan p0 Hclient)
    as (p' & Hrun & _ & He & Hf & _ & Hev).
  exists p'. split; [exact Hrun|]. auto.
Qed.

End WatcherFacts.

Section WatcherCache.
Context `{Foreign}.

Lemma fetched_inl (w : World) (allocation : FunctionsAllocation) :
  fetched w = inl allocation ->
  exists payload lease,
    kv (w_etcd w) !! "allocation"%string = Some (payload, lease)
    /\ json_Unmarshal payload = Some allocation.
Proof.
  unfold fetched. destruct (hd false (w_faults w)); [discriminate|].
  destruct (kv (w_etcd w) !! "allocation"%string) as [[value lease]|];
    [|discriminate].
  destruct (alive (w_etcd w) lease); [|discriminate].
  destruct (json_Unmarshal value) as [a|] eqn:Ha; [|discriminate].
  intros [= <-]. eauto.
Qed.

Lemma fetched_live (w : World) (payload : string) (lease : Z)
    (allocation : FunctionsAllocation) :
  w_faults w = [] ->
  kv (w_etcd w) !! "allocation"%string = Some (payload, lease) ->
  alive (w_etcd w) lease = true ->
  json_Unmarshal payload = Some allocation ->
  fetched w = inl allocation.
Proof.
  intros Hfl Hkv Halive Hdec. unfold fetched.
  now rewrite Hfl, Hkv, Halive, Hdec.
Qed.

Lemma watch_events_cache (events : list WatchEvent) :
  forall p p' : Process,
    w_client (p_world p) = true ->
    watch_events events p = (Ret tt, p') ->
    Allocation p' = Allocation p
    \/ exists payload lease,
         kv (w_etcd (p_world p)) !! "allocation"%string = Some (payload, lease)
         /\ json_Unmarshal payload = Some (Allocation p').
Proof.
  induction events as [|event rest IH]; intros p p' Hclient Hrun.
  - injection Hrun as <-. now left.
  - cbn [watch_events] in Hrun. unfold pbind at 1 in Hrun.
    rewrite (watch_event_spec event p Hclient) in Hrun.
    destruct (IH (after_event event p) p' Hclient Hrun) as [Hsame|Hstored].
    + rewrite Hsame. cbn [after_event Allocation].
      destruct (fetched (p_world p)) as [a|e] eqn:Hf; [|now left].
      right. now apply fetched_inl.
    + right. exact Hstored.
Qed.

(** X14. The watcher's cache is never a mixture: after any run of the
    watcher it is the cache the process started with or, whole, the plan
    decoded from a value that stood under the key [allocation] when one of
    the messages was handled. *)
Theorem watcher_cache_is_a_stored_plan (watchChan : list WatchResponse)
    (p p' : Process) :
  w_client (p_world p) = true ->
  watchAllocation watchChan p = (Ret tt, p') ->
  Allocation p' = Allocation p
  \/ exists (k : nat) (payload : string) (lease : Z),
       (k <= length watchChan)%nat
       /\ kv (store_after (take k watchChan) (w_etcd (p_world p)))
            !! "allocation"%string = Some (payload, lease)
       /\ json_Unmarshal payload = Some (Allocation p').
Proof.
  intros Hclient. unfold watchAllocation, pbind, wlog, lift, GetEtcdClient.
  cbn [p_world Allocation p_log]. rewrite Hclient.
  match goal with
  | |- context [watch_responses _ ?q] => set (p0 := q)
  end.
  change (Allocation p) with (Allocation p0).
  change (w_etcd (p_world p)) with (w_etcd (p_world p0)).
  assert (w_client (p_world p0) = true) as Hclient0 by exact Hclient.
  clearbody p0. clear p Hclient. revert p0 Hclient0.
  induction watchChan as [|r rest IH]; intros p Hclient Hrun.
  - injection Hrun as <-. now left.
  - cbn [watch_responses] in Hrun. unfold pbind at 1, receive in Hrun.
    match type of Hrun with
    | context [pbind (watch_events _) _ ?q] => set (p1 := q) in Hrun
    end.
    destruct (watch_events_watched (Events r) p1 Hclient)
      as (p2 & Hrun2 & Hc2 & He2 & _).
    unfold pbind at 1 in Hrun. rewrite Hrun2 in Hrun.
    pose proof (watch_events_cache (Events r) p1 p2 Hclient Hrun2) as Hcache.
    destruct (IH p2 Hc2 Hrun) as [Hsame|(k & payload & lease & Hk & Hkv & Hdec)].
    + rewrite Hsame. destruct Hcache as [Hsame2|(payload & lease & Hkv & Hdec)].
      * now left.
      * right. exists 1%nat, payload, lease. cbn [length take].
        split; [lia|]. split; [exact Hkv|exact Hdec].
    + right. exists (S k), payload, lease. cbn [length take].
      split; [lia|]. split; [|exact Hdec].
      unfold store_after in *. cbn [foldl]. rewrite He2 in Hkv. exact Hkv.
Qed.

Lemma watch_events_live (payload : string) (lease : Z)
    (allocation : FunctionsAllocation) (events : list WatchEvent) :
  forall p : Process,
    w_client (p_world p) = true ->
    w_faults (p_world p) = [] ->
    kv (w_etcd (p_world p)) !! "allocation"%string = Some (payload, lease) ->
    alive (w_etcd (p_world p)) lease = true ->
    json_Unmarshal payload = Some allocation ->
    exists p',
      watch_events events p = (Ret tt, p')
      /\ Allocation p' = match events with
                         | [] => Allocation p
                         | _ :: _ => allocation
                         end.
Proof.
  induction events as [|event rest IH]; intros p Hclient Hfl Hkv Halive Hdec.
  - exists p. split; reflexivity.
  - cbn [watch_events]. unfold pbind at 1.
    rewrite (watch_event_spec event p Hclient).
    destruct (IH (after_event event p)) as (p' & Hrun & Hcache); auto.
    { cbn [after_event p_world logged answered with_trace with_faults
           w_faults]. now rewrite Hfl. }
    exists p'. split; [exact Hrun|]. rewrite Hcache.
    destruct rest; [|reflexivity].
    cbn [after_event Allocation].
    now rewrite (fetched_live _ payload lease allocation).
Qed.

Lemma watch_responses_app (pre post : list WatchResponse) :
  forall p p1 : Process,
    watch_responses pre p = (Ret tt, p1) ->
    watch_responses (pre ++ post) p = watch_responses post p1.
Proof.
  induction pre as [|r rest IH]; intros p p1 Hrun.
  - injection Hrun as <-. reflexivity.
  - cbn [watch_responses app] in *. unfold pbind at 1 in Hrun.
    unfold pbind at 1. cbn [receive] in *.
    unfold pbind at 1 in Hrun. unfold pbind at 1.
    destruct (watch_events (Events r) _) as [[[]| |] p2]; try discriminate.
    now apply IH.
Qed.

Lemma store_after_snoc (pre : list WatchResponse) (r : WatchResponse)
    (e : Etcd) :
  store_after (pre ++ [r]) e = arrives r (store_after pre e).
Proof. unfold store_after. now rewrite foldl_app. Qed.

(** X15. When the last message of the channel carries an event and the
    coordination store then holds a live value under [allocation] that
    decodes to a plan, a watcher whose requests succeed ends with exactly
    that plan in its cache: [GetAllocation] returns it, whatever the cache
    held before. *)
Theorem watcher_caches_last_plan (earlier : list WatchResponse)
    (last : WatchResponse) (p : Process) (payload : string) (lease : Z)
    (plan : FunctionsAllocation) :
  w_client (p_world p) = true ->
  w_faults (p_world p) = [] ->
  Events last <> [] ->
  kv (store_after (earlier ++ [last]) (w_etcd (p_world p)))
    !! "allocation"%string = Some (payload, lease) ->
  alive (store_after (earlier ++ [last]) (w_etcd (p_world p))) lease = true ->
  json_Unmarshal payload = Some plan ->
  exists p',
    watchAllocation (earlier ++ [last]) p = (Ret tt, p')
    /\ GetAllocation p' = (Ret plan, p').
Proof.
  intros Hclient Hfl Hev Hkv Halive Hdec.
  unfold watchAllocation, pbind, wlog, lift, GetEtcdClient.
  cbn [p_world Allocation p_log]. rewrite Hclient.
  match goal with
  | |- context [watch_responses _ ?q] => set (p0 := q)
  end.
  destruct (watch_responses_watched earlier p0 Hclient)
    as (p1 & Hrun1 & Hc1 & He1 & _ & Hfl1 & _).
  rewrite (watch_responses_app earlier [last] p0 p1 Hrun1).
  cbn [watch_responses]. unfold pbind at 1, receive.
  match goal with
  | |- context [pbind (watch_events _) _ ?q] => set (p2 := q)
  end.
  rewrite store_after_snoc in Hkv, Halive.
  assert (w_client (p_world p2) = true) as Hc2 by exact Hc1.
  assert (w_faults (p_world p2) = []) as Hfl2
    by (subst p2; cbn [p_world with_etcd w_faults]; apply Hfl1; exact Hfl).
  assert (w_etcd (p_world p2)
          = arrives last (store_after earlier (w_etcd (p_world p)))) as He2
    by (subst p2; cbn [p_world with_etcd w_etcd]; now rewrite He1).
  rewrite <- He2 in Hkv, Halive.
  destruct (watch_events_live payload lease plan (Events last) p2
              Hc2 Hfl2 Hkv Halive Hdec) as (p' & Hrun & Hcache).
  unfold pbind at 1. rewrite Hrun. unfold pret.
  exists p'. split; [reflexivity|].
  unfold GetAllocation. rewrite Hcache.
  destruct (Events last); [congruence|reflexivity].
Qed.

End WatcherCache.

(** ** Start-up and roles *)

Lemma initNodeResources_ok (core : InfoStat) (cores : list InfoStat)
    (mem : VirtualMemoryStat) (w : World) :
  initNodeResources (inl (core :: cores)) (inl mem) w
  = (Ret None, with_resources w (probed_resources core cores mem)).
Proof. reflexivity. Qed.

Lemma int64_of_megabytes (total : Z) :
  0 <= total < 2 ^ 64 ->
  int64_of_uint64 (total / 1000000) = total / 1000000.
Proof.
  intros Ht. unfold int64_of_uint64.
  assert (0 <= total / 1000000) by (apply Z.div_pos; lia).
  assert (total / 1000000 < 2 ^ 63)
    by (apply Z.div_lt_upper_bound; lia).
  rewrite Z.mod_small by lia. lia.
Qed.

(** X16. After start-up the local node's row of the snapshot is fixed by
    the probes: memory in units of a million bytes, the clock of the first
    core times the number of cores, the clock of the first core, and the
    placeholders 10 for IPC and 400 for power, whatever the hardware. *)
Theorem local_row_after_init (core : InfoStat) (cores : list InfoStat)
    (mem : VirtualMemoryStat)
    (serversMap : list (string * StatusInformation)) (w : World) :
  0 <= Total mem < 2 ^ 64 ->
  Forall url_sliceable serversMap ->
  exists w1 nodeInfo nodeIp,
    initNodeResources (inl (core :: cores)) (inl mem) w = (Ret None, w1)
    /\ prepareNodeInfo serversMap w1 = (Ret (nodeInfo, nodeIp), w1)
    /\ row_at nodeInfo nodeIp (length serversMap)
       = Some {| row_memory := Total mem / 1000000;
                 row_capacity :=
                   to_int (mul (Mhz core) (of_Z (len (core :: cores))));
                 row_maximum := to_int (Mhz core);
                 row_ipc := 10;
                 row_power := 400;
                 row_ip := w_ip w |}.
Proof.
  intros Hmem Hurl.
  set (w1 := with_resources w (probed_resources core cores mem)).
  exists w1, (fst (columns (snapshot_rows serversMap w1) 0)),
         (snd (columns (snapshot_rows serversMap w1) 0)).
  split; [apply initNodeResources_ok|]. split.
  - rewrite <- surjective_pairing. now apply prepareNodeInfo_columns.
  - rewrite row_at_columns. unfold snapshot_rows.
    rewrite lookup_app_r; rewrite length_map; [|lia].
    rewrite Nat.sub_diag. cbn [lookup list_lookup]. f_equal.
    unfold local_row. subst w1.
    cbn [with_resources w_resources w_ip probed_resources res_TotalMemoryMB
         res_ComputationalCapacity res_MaximumCapacity res_IPC
         res_PowerConsumption].
    rewrite (int64_of_megabytes _ Hmem).
    f_equal.
Qed.

Section Roles.
Context `{Foreign}.

(** X17. [Run] gets past start-up only when both probes answer and report
    a core: a failed probe is fatal, and an empty core list panics on
    [cpuInfo[0]]. In either case nothing else happens: the resources, the
    cache and the coordination store stay as they were, no request is made
    and neither the solver loop nor the watcher starts. *)
Theorem Run_start_up_failure (cpuInfo : list InfoStat + error)
    (vMemInfo : VirtualMemoryStat + error) (isSolverNode : bool)
    (epochDuration : Z) (ticks : list Z) (watchChan : list WatchResponse)
    (p : Process) :
  ~ probes_ok cpuInfo vMemInfo ->
  exists o p',
    Run cpuInfo vMemInfo isSolverNode epochDuration ticks watchChan p
    = (o, p')
    /\ (o = Fatal \/ (cpuInfo = inl [] /\ o = Panic /\ p' = p))
    /\ Allocation p' = Allocation p
    /\ p_log p' = p_log p
    /\ w_resources (p_world p') = w_resources (p_world p)
    /\ w_etcd (p_world p') = w_etcd (p_world p)
    /\ w_faults (p_world p') = w_faults (p_world p).
Proof.
  intros Hbad. unfold Run, pbind, lift, initNodeResources.
  destruct cpuInfo as [[|core cores]|e].
  - destruct vMemInfo as [mem|e].
    + destruct p. cbn. eexists _, _. split; [reflexivity|].
      split; [right|]; repeat split; reflexivity.
    + cbn. eexists _, _. split; [reflexivity|].
      split; [left|]; repeat split; reflexivity.
  - destruct vMemInfo as [mem|e].
    + exfalso. apply Hbad. exists core, cores, mem. auto.
    + cbn. eexists _, _. split; [reflexivity|].
      split; [left|]; repeat split; reflexivity.
  - cbn. eexists _, _. split; [reflexivity|].
    split; [left|]; repeat split; reflexivity.
Qed.

(** X18. A node that is not configured as the solver only watches: with
    good probes and a client, [Run] sets the resources and handles the
    messages of the watch channel; it makes no call to the solver, saves no
    function record and publishes nothing, whatever the configured epoch
    is. *)
Theorem Run_watcher_role (core : InfoStat) (cores : list InfoStat)
    (mem : VirtualMemoryStat) (epochDuration : Z) (ticks : list Z)
    (watchChan : list WatchResponse) (p : Process) :
  w_client (p_world p) = true ->
  exists p',
    Run (inl (core :: cores)) (inl mem) false epochDuration ticks watchChan p
    = (Ret tt, p')
    /\ w_resources (p_world p') = probed_resources core cores mem
    /\ w_etcd (p_world p') = store_after watchChan (w_etcd (p_world p))
    /\ w_functions (p_world p') = w_functions (p_world p)
    /\ exists t, w_trace (p_world p') = w_trace (p_world p) ++ t
                 /\ forallb watcher_event t = true.
Proof.
  intros Hclient. unfold Run. unfold pbind at 1, lift at 1.
  rewrite initNodeResources_ok.
  unfold watchAllocation, pbind, wlog, lift, GetEtcdClient.
  cbn [p_world Allocation p_log with_resources w_client]. rewrite Hclient.
  match goal with
  | |- context [watch_responses _ ?q] => set (p0 := q)
  end.
  destruct (watch_responses_watched watchChan p0 Hclient)
    as (p' & Hrun & _ & He & Hf & _ & Hev).
  exists p'. split; [exact Hrun|].
  split; [|split; [exact He|split; [exact Hf|exact Hev]]].
  clear - Hrun.
  assert (forall (l : list WatchResponse) (q q' : Process),
            watch_responses l q = (Ret tt, q') ->
            w_resources (p_world q') = w_resources (p_world q)) as Hres.
  { induction l as [|r rest IH]; intros q q' E.
    - now injection E as <-.
    - cbn [watch_responses] in E. unfold pbind at 1, receive in E.
      unfold pbind at 1 in E.
      match type of E with
      | context [watch_events _ ?x] => set (q1 := x) in E
      end.
      assert (forall (ev : list WatchEvent) (a a' : Process),
                watch_events ev a = (Ret tt, a') ->
                w_resources (p_world a') = w_resources (p_world a)) as Hev.
      { induction ev as [|e ev IHev]; intros a a' Ea.
        - now injection Ea as <-.
        - cbn [watch_events] in Ea. unfold pbind at 1 in Ea.
          unfold watch_event, pbind, wlog, lift in Ea.
          cbn [p_world Allocation p_log] in Ea.
          unfold getAllocationFromEtcd, GetEtcdClient in Ea.
          erewrite bind_ret in Ea; [|reflexivity].
          destruct (w_client (p_world a)); [|discriminate Ea].
          unfold bind at 1 in Ea. rewrite Get_spec in Ea.
          destruct (hd false (w_faults (p_world a)));
            [apply IHev in Ea; exact Ea|].
          destruct (kv (w_etcd (p_world a)) !! "allocation"%string)
            as [[value lease]|];
            [destruct (alive (w_etcd (p_world a)) lease);
             [destruct (json_Unmarshal value)|]|];
            apply IHev in Ea; exact Ea. }
      destruct (watch_events (Events r) q1) as [[[]| |] q2] eqn:E2;
        try discriminate E.
      rewrite (IH q2 q' E). now rewrite (Hev _ _ _ E2). }
  now rewrite (Hres _ _ _ Hrun).
Qed.

End Roles.

(** ** The solver loop *)



Section SolverLoop.
Context `{Foreign}.







(** X21. The configured epoch is multiplied by a second in 64 bits. Up to
    9223372036 seconds the period is exact; an epoch of zero or less makes
    the solver node panic when the ticker is created: the resources are
    set, no cycle runs and nothing else on the node changes. *)
Theorem Run_solver_epoch_not_positive (core : InfoStat)
    (cores : list InfoStat) (mem : VirtualMemoryStat) (epochDuration : Z)
    (ticks : list Z) (watchChan : list WatchResponse) (p : Process) :
  - 9223372036 <= epochDuration <= 9223372036 ->
  epoch_period epochDuration = epochDuration * 1000000000
  /\ (epochDuration <= 0 ->
      Run (inl (core :: cores)) (inl mem) true epochDuration ticks watchChan p
      = (Panic,
         {| p_world :=
              with_resources (p_world p) (probed_resources core cores mem);
            Allocation := Allocation p;
            p_log := p_log p |})).
Proof.
  intros Hrange.
  assert (epoch_period epochDuration = epochDuration * 1000000000) as Hp.
  { unfold epoch_period, int64_of_uint64.
    rewrite Z.mod_small; lia. }
  split; [exact Hp|]. intros Hle.
  unfold Run. unfold pbind at 1, lift at 1.
  rewrite initNodeResources_ok. unfold lift.
  cbn [p_world Allocation p_log].
  unfold NewTicker. rewrite Hp.
  destruct (0 <? epochDuration * 1000000000) eqn:E;
    [apply Z.ltb_lt in E; lia|].
  reflexivity.
Qed.

End SolverLoop.

(** ** The small cluster, further *)

Lemma prepareNodeInfo_short_url_panics_witness :
  prepareNodeInfo [Site.stub_peer] Demo.world = (Panic, Demo.world).
Proof.
  apply (prepareNodeInfo_short_url_panics [Site.stub_peer] Demo.world).
  apply Exists_cons_hd. vm_compute. reflexivity.
Defined.

Lemma prepareNodeInfo_default_port_ip_witness :
  exists nodeInfo nodeIp,
    prepareNodeInfo Demo.servers Demo.world
    = (Ret (nodeInfo, nodeIp), Demo.world)
    /\ nodeIp !! 1%nat = Some "10.0.0.2"%string.
Proof.
  apply (prepareNodeInfo_default_port_ip Demo.servers Demo.world 1%nat
           "node-b"%string (Demo.peer "http://10.0.0.2:1323")
           "10.0.0.2"%string "1323"%string).
  - exact demo_urls_sliceable.
  - reflexivity.
  - reflexivity.
  - reflexivity.
Defined.

Lemma solve_request_counts_witness :
  exists req,
    @solve Demo.foreign Demo.world
    = @process_results Demo.foreign (@startSolver Demo.foreign req)
        Demo.functions (snapshot_ips Demo.world)
        (logged Demo.world (snapshot_trace Demo.world Demo.functions))
    /\ last (snapshot_trace Demo.world Demo.functions)
       = Some (EvStartSolver req)
    /\ (length (nodeMemory req) = S (length (w_servers Demo.world))
        /\ length (nodeCapacity req) = S (length (w_servers Demo.world))
        /\ length (maximumCapacity req) = S (length (w_servers Demo.world))
        /\ length (nodeIpc req) = S (length (w_servers Demo.world))
        /\ length (nodePowerConsumption req)
           = S (length (w_servers Demo.world)))
    /\ (length (functionMemory req) = length Demo.functions
        /\ length (functionWorkload req) = length Demo.functions
        /\ length (functionDeadline req) = length Demo.functions
        /\ length (functionInvocations req) = length Demo.functions)
    /\ (len (w_servers Demo.world) + 1 < 2 ^ 31 ->
        numberOfNodes req = len (w_servers Demo.world) + 1)
    /\ (len Demo.functions < 2 ^ 31 ->
        numberOfFunctions req = len Demo.functions).
Proof.
  apply (@solve_request_counts Demo.foreign Demo.world Demo.functions).
  - reflexivity.
  - discriminate.
  - exact demo_urls_sliceable.
Defined.

Lemma solve_fatal_on_malformed_response_witness :
  @solve Site.garbled Demo.world
  = (Fatal,
     logged Demo.world
       (snapshot_trace Demo.world Demo.functions
        ++ [EvLog (LogFatal "Error unmarshalling results")]))
  /\ w_functions (snd (@solve Site.garbled Demo.world))
     = w_functions Demo.world
  /\ w_etcd (snd (@solve Site.garbled Demo.world)) = w_etcd Demo.world.
Proof.
  apply (@solve_fatal_on_malformed_response Site.garbled Demo.world
           Demo.functions).
  - reflexivity.
  - discriminate.
  - exact demo_urls_sliceable.
  - reflexivity.
Defined.

Lemma plan_covers_functions_witness :
  dom Demo.plan = list_to_set Demo.functions
  /\ (NoDup Demo.functions ->
      forall (i : nat) (name : string),
        Demo.functions !! i = Some name ->
        exists fa,
          Demo.plan !! name = Some fa
          /\ FunctionsCapacity Demo.results !! i = Some (Capacity fa)).
Proof.
  apply (plan_covers_functions Demo.results Demo.functions Demo.nodeIp
           Demo.world
           (snd (computeFunctionsAllocation Demo.results Demo.functions
                   Demo.nodeIp Demo.world))
           Demo.plan).
  reflexivity.
Defined.

Lemma site_partial_registry_wf : registry_wf Site.partial.
Proof.
  intros name f. cbn [Site.partial w_functions]. intros E.
  apply lookup_insert_Some in E as [[<- <-]|[_ E]]; [reflexivity|].
  now rewrite lookup_empty in E.
Qed.

Lemma site_partial_unregistered :
  ~ all_registered Site.partial Demo.functions.
Proof.
  intros Hall. inversion Hall as [|? ? _ Hrest]; subst.
  inversion Hrest as [|? ? [f Hf] _]; subst.
  vm_compute in Hf. discriminate Hf.
Qed.

Lemma planning_stops_at_unregistered_witness :
  exists w',
    computeFunctionsAllocation Demo.results Demo.functions Demo.nodeIp
      Site.partial = (Ret (inr "Function not found"%string), w')
    /\ w_faults w' = drop 1 (w_faults Site.partial)
    /\ w_functions w' !! "g"%string = None
    /\ forall (i : nat) (fn : string),
         (i < 1)%nat -> Demo.functions !! i = Some fn ->
         exists capacity f,
           FunctionsCapacity Demo.results !! i = Some capacity
           /\ w_functions w' !! fn = Some f
           /\ CPUDemand f
              = cpuDemand capacity
                  (res_MaximumCapacity (w_resources Site.partial)).
Proof.
  apply (planning_stops_at_unregistered Demo.results Demo.functions
           Demo.nodeIp Site.partial 1%nat "g"%string).
  - reflexivity.
  - reflexivity.
  - repeat constructor. vm_compute. eauto.
  - intros [|[|k]] Hk; [reflexivity|reflexivity|lia].
  - constructor.
  - exact demo_functions_NoDup.
  - exact site_partial_registry_wf.
Defined.

Lemma solve_fatal_on_unregistered_function_witness :
  fst (@solve Demo.foreign Site.partial) = Fatal
  /\ w_etcd (snd (@solve Demo.foreign Site.partial)) = w_etcd Site.partial
  /\ EvStartSolver (snapshot_request Site.partial Demo.functions)
     ∈ w_trace (snd (@solve Demo.foreign Site.partial))
  /\ exists name,
       name ∈ Demo.functions
       /\ w_functions Site.partial !! name = None
       /\ EvLog (LogRetrievingFunction name)
          ∈ w_trace (snd (@solve Demo.foreign Site.partial)).
Proof.
  apply (@solve_fatal_on_unregistered_function Demo.foreign Site.partial
           Demo.functions Demo.results).
  - reflexivity.
  - exact demo_urls_sliceable.
  - reflexivity.
  - exact demo_response_fits.
  - exact site_partial_unregistered.
  - constructor.
  - exact site_partial_registry_wf.
Defined.

Lemma failed_publish_keeps_value_witness :
  kv (w_etcd (snd (@saveAllocationToEtcd Demo.foreign Demo.plan Demo.flaky)))
  = kv (w_etcd Demo.flaky)
  /\ (fst (@saveAllocationToEtcd Demo.foreign Demo.plan Demo.flaky) = Fatal
      \/ (@json_Marshal Demo.foreign Demo.plan = None
          /\ @saveAllocationToEtcd Demo.foreign Demo.plan Demo.flaky
             = (Ret (Some "Could not marshal allocation"%string), Demo.flaky))).
Proof.
  apply (@failed_publish_keeps_value Demo.foreign Demo.plan Demo.flaky).
  vm_compute. discriminate.
Defined.

Lemma fetch_after_publish_witness :
  exists payload,
    @json_Marshal Demo.foreign Demo.plan = Some payload
    /\ fst (@getAllocationFromEtcd Demo.foreign
              (elapse 75
                 (snd (@saveAllocationToEtcd Demo.foreign Demo.plan
                         Demo.world))))
       = if 75 <? 60
         then match @json_Unmarshal Demo.foreign payload with
              | Some fetched => Ret (inl fetched)
              | None => Ret (inr "Failed to unmarshal allocation"%string)
              end
         else Ret (inr "No data found for key 'allocation'"%string).
Proof.
  apply (@fetch_after_publish Demo.foreign Demo.plan Demo.world
           (snd (@saveAllocationToEtcd Demo.foreign Demo.plan Demo.world))
           (elapse 75
              (snd (@saveAllocationToEtcd Demo.foreign Demo.plan Demo.world)))
           75).
  - vm_compute. reflexivity.
  - lia.
  - reflexivity.
  - reflexivity.
  - reflexivity.
Defined.

Lemma fetch_is_read_only_witness :
  exists r,
    fst (@getAllocationFromEtcd Demo.foreign Demo.world) = Ret r
    /\ w_etcd (snd (@getAllocationFromEtcd Demo.foreign Demo.world))
       = w_etcd Demo.world
    /\ w_functions (snd (@getAllocationFromEtcd Demo.foreign Demo.world))
       = w_functions Demo.world
    /\ (hd false (w_faults Demo.world) = true ->
        r = inr "Failed to get allocation from etcd"%string)
    /\ (kv (w_etcd Demo.world) !! "allocation"%string = None ->
        exists e, r = inr e).
Proof.
  apply (@fetch_is_read_only Demo.foreign Demo.world). reflexivity.
Defined.

Lemma watcher_survives_and_only_reads_witness :
  exists p',
    @watchAllocation Demo.foreign [Site.quiet_message; Site.plan_message]
      (start Demo.idle) = (Ret tt, p')
    /\ w_etcd (p_world p')
       = store_after [Site.quiet_message; Site.plan_message]
           (w_etcd (p_world (start Demo.idle)))
    /\ w_functions (p_world p') = w_functions (p_world (start Demo.idle))
    /\ exists t, w_trace (p_world p')
                 = w_trace (p_world (start Demo.idle)) ++ t
                 /\ forallb watcher_event t = true.
Proof.
  apply (@watcher_survives_and_only_reads Demo.foreign
           [Site.quiet_message; Site.plan_message] (start Demo.idle)).
  reflexivity.
Defined.

Lemma watcher_cache_is_a_stored_plan_witness :
  Demo.plan = ∅
  \/ exists (k : nat) (payload : string) (lease : Z),
       (k <= 2)%nat
       /\ kv (store_after (take k [Site.quiet_message; Site.plan_message])
                (w_etcd Demo.idle))
            !! "allocation"%string = Some (payload, lease)
       /\ @json_Unmarshal Demo.foreign payload = Some Demo.plan.
Proof.
  apply (@watcher_cache_is_a_stored_plan Demo.foreign
           [Site.quiet_message; Site.plan_message] (start Demo.idle)
           {| p_world :=
                p_world (snd (@watchAllocation Demo.foreign
                                [Site.quiet_message; Site.plan_message]
                                (start Demo.idle)));
              Allocation := Demo.plan;
              p_log :=
                p_log (snd (@watchAllocation Demo.foreign
                              [Site.quiet_message; Site.plan_message]
                              (start Demo.idle))) |}).
  - reflexivity.
  - vm_compute. reflexivity.
Defined.

Lemma watcher_caches_last_plan_witness :
  exists p',
    @watchAllocation Demo.foreign ([Site.quiet_message] ++ [Site.plan_message])
      (start Demo.idle) = (Ret tt, p')
    /\ GetAllocation p' = (Ret Demo.plan, p').
Proof.
  apply (@watcher_caches_last_plan Demo.foreign [Site.quiet_message]
           Site.plan_message (start Demo.idle) Demo.payload 1 Demo.plan).
  - reflexivity.
  - reflexivity.
  - discriminate.
  - vm_compute. reflexivity.
  - vm_compute. reflexivity.
  - vm_compute. reflexivity.
Defined.

Lemma local_row_after_init_witness :
  exists w1 nodeInfo nodeIp,
    initNodeResources (inl (Site.core :: replicate 3 Site.core))
      (inl Site.memory) Demo.world = (Ret None, w1)
    /\ prepareNodeInfo Demo.servers w1 = (Ret (nodeInfo, nodeIp), w1)
    /\ row_at nodeInfo nodeIp (length Demo.servers)
       = Some {| row_memory := Total Site.memory / 1000000;
                 row_capacity :=
                   to_int (mul (Mhz Site.core)
                             (of_Z (len (Site.core :: replicate 3 Site.core))));
                 row_maximum := to_int (Mhz Site.core);
                 row_ipc := 10;
                 row_power := 400;
                 row_ip := w_ip Demo.world |}.
Proof.
  apply (local_row_after_init Site.core (replicate 3 Site.core) Site.memory
           Demo.servers Demo.world).
  - cbn. lia.
  - exact demo_urls_sliceable.
Defined.

(** Four cores at 2400 MHz and 16 GB are sent to the solver as a capacity of
    9600, a maximum of 2400 and 16000 units of memory. *)
Example local_row_numbers :
  to_int (mul (Mhz Site.core) (of_Z (len (Site.core :: replicate 3 Site.core))))
  = 9600
  /\ to_int (Mhz Site.core) = 2400
  /\ Total Site.memory / 1000000 = 16000.
Proof. repeat split; vm_compute; reflexivity. Qed.

Lemma site_no_core : ~ probes_ok (inl []) (inl Site.memory).
Proof. intros (core & cores & mem & Hcpu & _). discriminate Hcpu. Qed.

Lemma Run_start_up_failure_witness :
  exists o p',
    @Run Demo.foreign (inl []) (inl Site.memory) true 30 [30; 30] []
      (start Demo.world) = (o, p')
    /\ (o = Fatal
        \/ ((inl [] : list InfoStat + error) = inl []
            /\ o = Panic /\ p' = start Demo.world))
    /\ Allocation p' = Allocation (start Demo.world)
    /\ p_log p' = p_log (start Demo.world)
    /\ w_resources (p_world p') = w_resources (p_world (start Demo.world))
    /\ w_etcd (p_world p') = w_etcd (p_world (start Demo.world))
    /\ w_faults (p_world p') = w_faults (p_world (start Demo.world)).
Proof.
  apply (@Run_start_up_failure Demo.foreign (inl []) (inl Site.memory) true
           30 [30; 30] [] (start Demo.world)).
  exact site_no_core.
Defined.

Lemma Run_watcher_role_witness :
  exists p',
    @Run Demo.foreign (inl (Site.core :: replicate 3 Site.core))
      (inl Site.memory) false 30 [] [Site.plan_message] (start Demo.idle)
    = (Ret tt, p')
    /\ w_resources (p_world p')
       = probed_resources Site.core (replicate 3 Site.core) Site.memory
    /\ w_etcd (p_world p')
       = store_after [Site.plan_message] (w_etcd (p_world (start Demo.idle)))
    /\ w_functions (p_world p') = w_functions (p_world (start Demo.idle))
    /\ exists t, w_trace (p_world p')
                 = w_trace (p_world (start Demo.idle)) ++ t
                 /\ forallb watcher_event t = true.
Proof.
  apply (@Run_watcher_role Demo.foreign Site.core (replicate 3 Site.core)
           Site.memory 30 [] [Site.plan_message] (start Demo.idle)).
  reflexivity.
Defined.



Lemma Run_solver_epoch_not_positive_witness :
  epoch_period 0 = 0 * 1000000000
  /\ (0 <= 0 ->
      @Run Demo.foreign (inl (Site.core :: replicate 3 Site.core))
        (inl Site.memory) true 0 [30] [] (start Demo.world)
      = (Panic,
         {| p_world :=
              with_resources (p_world (start Demo.world))
                (probed_resources Site.core (replicate 3 Site.core)
                   Site.memory);
            Allocation := Allocation (start Demo.world);
            p_log := p_log (start Demo.world) |})).
Proof.
  apply (@Run_solver_epoch_not_positive Demo.foreign Site.core
           (replicate 3 Site.core) Site.memory 0 [30] []
           (start Demo.world)).
  lia.
Defined.

(** ** The order in which a map is visited *)






(** Two peers on port 80 get the same text for an IP, and then the count
    that the plan keeps for it is the one of the node visited last. *)
Example twins_share_an_ip :
  option_map snd (returned (fst (prepareNodeInfo Twins.servers Demo.world)))
  = Some ["10.0.0."%string; "10.0.0."%string; "10.0.0.9"%string]
  /\ option_map (fun fa => Instances fa !! "10.0.0."%string)
       (plan_of Twins.results ["f"%string]
          0 ["10.0.0."%string; "10.0.0."%string; "10.0.0.9"%string] ∅
        !! "f"%string)
     = Some (Some 2)
  /\ option_map (fun fa => Instances fa !! "10.0.0."%string)
       (plan_of (with_instances Twins.results
                   (rev (NodesInstances Twins.results))) ["f"%string]
          0 ["10.0.0."%string; "10.0.0."%string; "10.0.0.9"%string] ∅
        !! "f"%string)
     = Some (Some 1).
Proof. repeat split; vm_compute; reflexivity. Qed.
